(** * wiz-ambilight: colour transforms, control loop and bulb discovery

    A shallow embedding of [ambilight.py] and [find_bulb.py].

    Python's [float] and NumPy's [float64] are IEEE 754 binary64: they are
    Rocq's primitive floats.  NumPy's [float32] is binary32, computed with the
    parameterised operations of [SpecFloat] at precision 24.  Both round to
    nearest, ties to even, and every definition below computes. *)

From Stdlib Require Import ZArith List Bool Lia QArith Qabs Qround.
From Stdlib Require Import Floats.SpecFloat Floats.PrimFloat Floats.FloatOps.
From Stdlib Require Import Numbers.Cyclic.Int63.Uint63.
From Stdlib Require Strings.String.
From Stdlib Require Strings.Ascii Numbers.DecimalString Numbers.DecimalZ Numbers.DecimalPos.
Import ListNotations.

Local Open Scope Z_scope.

(** ** IEEE 754 arithmetic *)

(** C's [fmod] on [spec_float]: the result has the sign of [x], is smaller
    than [y] in magnitude and is exact. *)
Definition SFfmod (prec emax : Z) (x y : spec_float) : spec_float :=
  match x, y with
  | S754_nan, _ | _, S754_nan => S754_nan
  | S754_infinity _, _ => S754_nan
  | _, S754_zero _ => S754_nan
  | S754_zero _, _ => x
  | S754_finite _ _ _, S754_infinity _ => x
  | S754_finite sx mx ex, S754_finite _ my ey =>
      let e := Z.min ex ey in
      let a := Z.shiftl (Zpos mx) (ex - e) in
      let b := Z.shiftl (Zpos my) (ey - e) in
      match a mod b with
      | Z0 => S754_zero sx
      | r => binary_normalize prec emax (cond_Zopp sx r) e false
      end
  end.

(** binary32, the arithmetic of [np.float32]. *)
Module B32.

Definition prec : Z := 24.
Definition emax : Z := 128.

Definition add := SFadd prec emax.
Definition sub := SFsub prec emax.
Definition mul := SFmul prec emax.
Definition div := SFdiv prec emax.
Definition fmod := SFfmod prec emax.

Definition of_Z (z : Z) : spec_float := binary_normalize prec emax z 0 false.

(** Conversion from binary64, correctly rounded. *)
Definition of_b64 (x : float) : spec_float :=
  match Prim2SF x with
  | S754_finite s m e => binary_round prec emax s m e
  | y => y
  end.

Definition compare (x y : spec_float) : option comparison := SFcompare x y.

Definition is_zero (x : spec_float) : bool :=
  match x with S754_zero _ => true | _ => false end.

Definition is_neg (x : spec_float) : bool :=
  match SFcompare x (S754_zero false) with Some Lt => true | _ => false end.

(** Truncation toward zero; [None] stands for the exception Python raises
    on an infinity or a NaN. *)
Definition trunc (x : spec_float) : option Z :=
  match x with
  | S754_zero _ => Some 0
  | S754_finite s m e =>
      Some (cond_Zopp s (match e with
                         | Zneg k => Z.shiftr (Zpos m) (Zpos k)
                         | _ => Z.shiftl (Zpos m) e
                         end))
  | _ => None
  end.

End B32.

(** binary64, the arithmetic of Python's [float] and of [np.float64]. *)
Module B64.

Definition add := PrimFloat.add.
Definition sub := PrimFloat.sub.
Definition mul := PrimFloat.mul.
Definition div := PrimFloat.div.

Definition two63 : Z := Eval compute in 2 ^ 63.

Definition of_pos (p : positive) : float :=
  if Zpos p <? two63 then of_uint63 (Uint63.of_pos p)
  else SF2Prim (binary_normalize FloatOps.prec FloatOps.emax (Zpos p) 0 false).

(** Conversion of an integer, correctly rounded (an infinity where Python
    raises [OverflowError]). *)
Definition of_Z (z : Z) : float :=
  match z with
  | Z0 => PrimFloat.zero
  | Zpos p => of_pos p
  | Zneg p => PrimFloat.opp (of_pos p)
  end.

(** Conversion from binary32, exact. *)
Definition of_b32 (x : spec_float) : float := SF2Prim x.

Definition fmod (x y : float) : float :=
  SF2Prim (SFfmod FloatOps.prec FloatOps.emax (Prim2SF x) (Prim2SF y)).

Definition compare (x y : float) : option comparison :=
  match PrimFloat.compare x y with
  | FEq => Some Eq
  | FLt => Some Lt
  | FGt => Some Gt
  | FNotComparable => None
  end.

Definition is_zero (x : float) : bool := PrimFloat.is_zero x.
Definition is_neg (x : float) : bool := PrimFloat.ltb x PrimFloat.zero.

(** [shift + prec]: with [(m, se) := frshiftexp x], the integer
    [normfr_mantissa m] times [2 ^ (se - bias)] is [|x|]. *)
Definition bias : int := 2154%uint63.

(** Truncation toward zero, as [int(x)] and [astype(int)] do; [None]
    stands for the exception Python raises on an infinity or a NaN. *)
Definition trunc (x : float) : option Z :=
  if (PrimFloat.is_nan x || PrimFloat.is_infinity x)%bool then None
  else
    let (m, se) := frshiftexp (PrimFloat.abs x) in
    let mi := normfr_mantissa m in
    let v := if PrimInt63.leb se bias
             then Uint63.to_Z (PrimInt63.lsr mi (PrimInt63.sub bias se))
             else Z.shiftl (Uint63.to_Z mi)
                           (Uint63.to_Z (PrimInt63.sub se bias)) in
    Some (if is_neg x then - v else v).

End B64.

(** ** Python scalars

    The numeric objects the two scripts compute with.  A Python [float] and
    an [np.float64] hold the same binary64 values but promote differently. *)

Inductive scalar :=
| PyInt (z : Z)
| PyFloat (x : float)
| NpFloat32 (x : spec_float)
| NpFloat64 (x : float).

(** A decimal literal [n / d] written in the source, e.g. [0.75] or [1.1]:
    the binary64 float nearest to it. *)
Definition py_lit (n d : Z) : scalar :=
  PyFloat (B64.div (B64.of_Z n) (B64.of_Z d)).

(** NumPy's scalar promotion.  Since NumPy 2 (NEP 50) a Python scalar is
    "weak" and takes the type of the NumPy scalar it meets; before, two
    scalars were promoted as their default types, so [np.float32] with a
    Python [float] or [int] gave [np.float64]. *)
Inductive promotion := NEP50 | Legacy.

Inductive kind := KPy | K32 | K64.

Definition result_kind (p : promotion) (a b : scalar) : kind :=
  match a, b with
  | NpFloat64 _, _ | _, NpFloat64 _ => K64
  | NpFloat32 _, NpFloat32 _ => K32
  | NpFloat32 _, _ | _, NpFloat32 _ =>
      match p with NEP50 => K32 | Legacy => K64 end
  | _, _ => KPy
  end.

Definition cast32 (a : scalar) : spec_float :=
  match a with
  | PyInt z => B32.of_Z z
  | PyFloat x | NpFloat64 x => B32.of_b64 x
  | NpFloat32 x => x
  end.

Definition cast64 (a : scalar) : float :=
  match a with
  | PyInt z => B64.of_Z z
  | PyFloat x | NpFloat64 x => x
  | NpFloat32 x => B64.of_b32 x
  end.

Definition binop (op32 : spec_float -> spec_float -> spec_float)
    (op64 : float -> float -> float) (p : promotion) (a b : scalar) : scalar :=
  match result_kind p a b with
  | K32 => NpFloat32 (op32 (cast32 a) (cast32 b))
  | K64 => NpFloat64 (op64 (cast64 a) (cast64 b))
  | KPy => PyFloat (op64 (cast64 a) (cast64 b))
  end.

(** [a + b], [a - b], [a * b], [a / b] with at least one float operand. *)
Definition s_add := binop B32.add B64.add.
Definition s_sub := binop B32.sub B64.sub.
Definition s_mul := binop B32.mul B64.mul.
Definition s_div := binop B32.div B64.div.

(** [a % b] on floats: [fmod] moved to the sign of the divisor, as both
    CPython's [float_rem] and NumPy's [npy_divmod] do. *)
Definition rem32 (x y : spec_float) : spec_float :=
  let m := B32.fmod x y in
  if B32.is_zero y then m
  else if B32.is_zero m then S754_zero (B32.is_neg y)
  else if Bool.eqb (B32.is_neg y) (B32.is_neg m) then m
  else B32.add m y.

Definition rem64 (x y : float) : float :=
  let m := B64.fmod x y in
  if B64.is_zero y then m
  else if B64.is_zero m then
    (if B64.is_neg y then PrimFloat.neg_zero else PrimFloat.zero)
  else if Bool.eqb (B64.is_neg y) (B64.is_neg m) then m
  else B64.add m y.

Definition s_mod := binop rem32 rem64.

Definition s_compare (p : promotion) (a b : scalar) : option comparison :=
  match result_kind p a b with
  | K32 => B32.compare (cast32 a) (cast32 b)
  | _ => B64.compare (cast64 a) (cast64 b)
  end.

Definition s_eqb p a b :=
  match s_compare p a b with Some Eq => true | _ => false end.
Definition s_ltb p a b :=
  match s_compare p a b with Some Lt => true | _ => false end.

(** Python's [min(a, b)] and [max(a, b)]: the first argument is kept unless
    the second is strictly smaller (larger). *)
Definition py_min p (a b : scalar) : scalar := if s_ltb p b a then b else a.
Definition py_max p (a b : scalar) : scalar := if s_ltb p a b then b else a.

(** [int(a)]. *)
Definition py_int (a : scalar) : option Z :=
  match a with
  | PyInt z => Some z
  | PyFloat x | NpFloat64 x => B64.trunc x
  | NpFloat32 x => B32.trunc x
  end.

(** ** Colours *)

(** A Python tuple of channel values. *)
Definition color := list Z.

Definition channel (c : Z) : Prop := 0 <= c <= 255.

Fixpoint sequence {A} (l : list (option A)) : option (list A) :=
  match l with
  | [] => Some []
  | None :: _ => None
  | Some x :: r =>
      match sequence r with Some r' => Some (x :: r') | None => None end
  end.

(** *** [smooth_color] *)

(** One channel: [int(alpha * n + (1 - alpha) * o)].  Scalars only meet
    Python floats here, so the promotion regime plays no part. *)
Definition smooth_channel (alpha : scalar) (n o : scalar) : option Z :=
  py_int (s_add NEP50 (s_mul NEP50 alpha n)
                      (s_mul NEP50 (s_sub NEP50 (PyInt 1) alpha) o)).

(** [new_color] holds [np.int64] values when it comes from
    [extract_edge_average]; against a Python float they become binary64, as
    a Python [int] does. *)
Definition smooth_color (new_color old_color : color) (alpha : scalar)
  : option color :=
  sequence (map (fun '(n, o) => smooth_channel alpha (PyInt n) (PyInt o))
                (combine new_color old_color)).

Definition alpha_default : scalar := py_lit 75 100.

(** *** [enhance_color] *)

Definition bind {A B} (x : option A) (f : A -> option B) : option B :=
  match x with Some a => f a | None => None end.

Notation "x <- c ;; k" := (bind c (fun x => k))
  (at level 61, c at next level, right associativity).

Definition f0 : scalar := py_lit 0 1.
Definition f1 : scalar := py_lit 1 1.
Definition f6 : scalar := py_lit 6 1.

Definition sat_boost_default : scalar := py_lit 14 10.
Definition val_boost_default : scalar := py_lit 11 10.

(** [np.array([r, g, b], dtype=np.float32) / 255.0]: an array operation,
    float32 under either promotion regime. *)
Definition rgb_array (r g b : Z) : list scalar :=
  map (fun c => NpFloat32 (B32.div (B32.of_Z c) (cast32 (py_lit 255 1))))
      [r; g; b].

(** [rgb.max()] and [rgb.min()]; the elements are never NaN. *)
Definition arr_max p (l : list scalar) : scalar :=
  fold_left (fun acc x => if s_ltb p acc x then x else acc) (tl l) (hd f0 l).
Definition arr_min p (l : list scalar) : scalar :=
  fold_left (fun acc x => if s_ltb p x acc then x else acc) (tl l) (hd f0 l).

Definition enhance_color (p : promotion) (r g b : Z)
    (sat_boost val_boost : scalar) : option (Z * Z * Z) :=
  let rgb := rgb_array r g b in
  let rgb0 := nth 0 rgb f0 in
  let rgb1 := nth 1 rgb f0 in
  let rgb2 := nth 2 rgb f0 in
  let maxc := arr_max p rgb in
  let minc := arr_min p rgb in
  let v := maxc in
  let delta := s_sub p maxc minc in
  let '(h, s) :=
    if s_eqb p delta (PyInt 0) then (f0, f0)
    else
      let s := s_div p delta maxc in
      let h :=
        if s_eqb p maxc rgb0 then
          s_mod p (s_div p (s_sub p rgb1 rgb2) delta) (PyInt 6)
        else if s_eqb p maxc rgb1 then
          s_add p (s_div p (s_sub p rgb2 rgb0) delta) (PyInt 2)
        else
          s_add p (s_div p (s_sub p rgb0 rgb1) delta) (PyInt 4) in
      (s_div p h f6, s) in
  (* Boost S and V *)
  let s := py_max p f0 (py_min p f1 (s_mul p s sat_boost)) in
  let v := py_max p f0 (py_min p f1 (s_mul p v val_boost)) in
  (* HSV -> RGB *)
  rgb2' <-
    (if s_eqb p s f0 then Some (v, v, v)
     else
       i <- py_int (s_mul p h f6) ;;
       let f := s_sub p (s_mul p h f6) (PyInt i) in
       let p' := s_mul p v (s_sub p f1 s) in
       let q := s_mul p v (s_sub p f1 (s_mul p s f)) in
       let t := s_mul p v (s_sub p f1 (s_mul p s (s_sub p f1 f))) in
       let i := i mod 6 in
       Some (if i =? 0 then (v, t, p')
             else if i =? 1 then (q, v, p')
             else if i =? 2 then (p', v, t)
             else if i =? 3 then (p', q, v)
             else if i =? 4 then (t, p', v)
             else (v, p', q))) ;;
  let '(r2, g2, b2) := rgb2' in
  r' <- py_int (s_mul p r2 (PyInt 255)) ;;
  g' <- py_int (s_mul p g2 (PyInt 255)) ;;
  b' <- py_int (s_mul p b2 (PyInt 255)) ;;
  Some (r', g', b').

(** The call in [main]: [enhance_color(r, g, b, sat_boost=1.4, val_boost=1.1)]. *)
Definition enhance (p : promotion) (c : Z * Z * Z) : option (Z * Z * Z) :=
  let '(r, g, b) := c in
  enhance_color p r g b sat_boost_default val_boost_default.

(** *** [extract_edge_average] *)

(** A pixel of an RGB image and the array [np.array(img)] of shape
    [(h, w, 3)]: a list of rows. *)
Definition pixel := (Z * Z * Z)%type.
Definition image := list (list pixel).

Definition red (px : pixel) : Z := fst (fst px).
Definition green (px : pixel) : Z := snd (fst px).
Definition blue (px : pixel) : Z := snd px.

Definition valid_pixel (px : pixel) : Prop :=
  channel (red px) /\ channel (green px) /\ channel (blue px).

(** The (width, height) pair PIL calls [size]. *)
Definition size (img : image) : nat * nat :=
  (length (hd [] img), length img).

Definition work_w : nat := 80.
Definition work_h : nat := 45.
Definition edge_thickness : nat := 5.

(** The slice [l[-k:]]. *)
Definition lastn {A} (k : nat) (l : list A) : list A :=
  skipn (length l - k) l.

Fixpoint sum_by {A} (f : A -> Z) (l : list A) : Z :=
  match l with
  | [] => 0
  | x :: r => f x + sum_by f r
  end.

(** [mean] of one column of an integer array followed by [astype(int)]:
    NumPy accumulates in binary64 (exactly: the addends are integers far
    below 2^53), divides by the number of rows and the cast truncates. *)
Definition mean_int (f : pixel -> Z) (edges : list pixel) : option Z :=
  B64.trunc (B64.div (B64.of_Z (sum_by f edges))
                     (B64.of_Z (Z.of_nat (length edges)))).

Definition top (a : image) : image := firstn edge_thickness a.
Definition bottom (a : image) : image := lastn edge_thickness a.
Definition left (a : image) : image := map (firstn edge_thickness) a.
Definition right (a : image) : image := map (lastn edge_thickness) a.

(** [np.vstack] of the four bands, each reshaped to a list of pixels. *)
Definition edges (a : image) : list pixel :=
  concat (top a) ++ concat (bottom a) ++ concat (left a) ++ concat (right a).

Section EdgeAverage.

(** PIL's resampling to 80x45, used when the image has another size. *)
Variable resample : image -> image.

(** [img.resize((80, 45))]: PIL returns a copy when the size is already
    the requested one. *)
Definition resize (img : image) : image :=
  if (Nat.eqb (fst (size img)) work_w && Nat.eqb (snd (size img)) work_h)%bool
  then img else resample img.

Definition extract_edge_average (img : image) : option (Z * Z * Z) :=
  let img_array := resize img in
  let e := edges img_array in
  r <- mean_int red e ;;
  g <- mean_int green e ;;
  b <- mean_int blue e ;;
  Some (r, g, b).

End EdgeAverage.

(** ** The control loop of [main] *)

(** The string ["X,Y WxH"] that [get_vlc_geometry] builds for [grim]. *)
Record geometry := { at_x : Z; at_y : Z; size_w : Z; size_h : Z }.

Inductive notice :=
| Waiting                 (* Waiting for VLC window... *)
| Detected                (* VLC window detected! *)
| Readout (r g b : Z)     (* R=... G=... B=... *)
| SendFailed.             (* Failed to send color: ... *)

(** What one iteration does to the outside world, in order. *)
Inductive event :=
| Query                   (* hyprctl clients -j *)
| Grab (g : geometry)     (* grim -g ... *)
| SetPilot (r g b : Z)    (* the datagram to (BULB_IP, BULB_PORT) *)
| Print (n : notice)
| Sleep (seconds : Q).

(** What the outside world answers during one iteration: the result of
    [get_vlc_geometry], of [capture_window], whether the socket calls of
    [send_color_to_wiz] go through, and the time the work took. *)
Record world := {
  located : option geometry;
  captured : option image;
  send_ok : bool;
  elapsed : Q
}.

Record state := { last_color : Z * Z * Z; no_vlc_count : Z }.

Definition FPS : Z := 20.
Definition frame_delay : Q := 1 # 20.

Definition initial : state := {| last_color := (0, 0, 0); no_vlc_count := 0 |}.

Definition tuple3 (c : Z * Z * Z) : color :=
  let '(r, g, b) := c in [r; g; b].

(** [send_color_to_wiz]: [True] after the datagram left, [False] with a
    printed message when a socket call raised. *)
Definition send_color_to_wiz (ok : bool) (r g b : Z) : bool * list event :=
  if ok then (true, [SetPilot r g b]) else (false, [Print SendFailed]).

(** [max(0, frame_delay - elapsed)]. *)
Definition sleep_time (el : Q) : Q :=
  if Qle_bool (frame_delay - el) 0 then 0%Q else (frame_delay - el)%Q.

Section ControlLoop.

Variable promo : promotion.
Variable resample : image -> image.

(** The three stages, in the order [main] runs them.  [None] stands for an
    exception, which nothing in [main] catches. *)
Definition smoothed (img : image) (last : Z * Z * Z) : option (Z * Z * Z) :=
  rgb <- extract_edge_average resample img ;;
  sm <- smooth_color (tuple3 rgb) (tuple3 last) alpha_default ;;
  match sm with
  | [r; g; b] => Some (r, g, b)
  | _ => None
  end.

Definition transform (img : image) (last : Z * Z * Z) : option (Z * Z * Z) :=
  c <- smoothed img last ;;
  enhance promo c.

(** One pass through the body of [while True]. *)
Definition iteration (st : state) (w : world) : option (state * list event) :=
  match located w with
  | None =>
      let n := no_vlc_count st + 1 in
      Some ({| last_color := last_color st; no_vlc_count := n |},
            [Query] ++ (if n mod 10 =? 1 then [Print Waiting] else [])
                    ++ [Sleep 1])
  | Some geo =>
      let '(n, detected) :=
        if 0 <? no_vlc_count st then (0, [Print Detected])
        else (no_vlc_count st, []) in
      match captured w with
      | None =>
          Some ({| last_color := last_color st; no_vlc_count := n |},
                [Query] ++ detected ++ [Grab geo; Sleep frame_delay])
      | Some img =>
          rgb <- transform img (last_color st) ;;
          let '(r, g, b) := rgb in
          let '(sent, ev) := send_color_to_wiz (send_ok w) r g b in
          Some ({| last_color := (r, g, b); no_vlc_count := n |},
                [Query] ++ detected ++ [Grab geo] ++ ev
                  ++ (if sent then [Print (Readout r g b)] else [])
                  ++ [Sleep (sleep_time (elapsed w))])
      end
  end.

(** The loop over the answers of the outside world, one per iteration. *)
Fixpoint run (st : state) (ws : list world) : option (state * list event) :=
  match ws with
  | [] => Some (st, [])
  | w :: ws' =>
      r <- iteration st w ;;
      r' <- run (fst r) ws' ;;
      Some (fst r', snd r ++ snd r')
  end.

End ControlLoop.

(** ** [find_bulb.py] *)

Module FindBulb.

Import String.

(** Strict UTF-8, as [bytes.decode()] checks it: no overlong form, no
    surrogate, nothing above U+10FFFF.  The result is the list of code
    points; [None] stands for [UnicodeDecodeError]. *)
Definition in_range (lo hi b : N) : bool := ((lo <=? b) && (b <=? hi))%N%bool.

Definition push (c : N) (r : option (list N)) : option (list N) :=
  match r with Some l => Some (c :: l) | None => None end.

Fixpoint decode (l : list N) : option (list N) :=
  match l with
  | [] => Some []
  | b0 :: l1 =>
      if (b0 <? 128)%N then push b0 (decode l1)
      else if in_range 194 223 b0 then
        match l1 with
        | b1 :: l2 =>
            if in_range 128 191 b1
            then push ((b0 - 192) * 64 + (b1 - 128))%N (decode l2)
            else None
        | _ => None
        end
      else if in_range 224 239 b0 then
        match l1 with
        | b1 :: b2 :: l3 =>
            if (in_range (if (b0 =? 224)%N then 160 else 128)
                         (if (b0 =? 237)%N then 159 else 191) b1
                && in_range 128 191 b2)%bool
            then push (((b0 - 224) * 64 + (b1 - 128)) * 64 + (b2 - 128))%N
                      (decode l3)
            else None
        | _ => None
        end
      else if in_range 240 244 b0 then
        match l1 with
        | b1 :: b2 :: b3 :: l4 =>
            if (in_range (if (b0 =? 240)%N then 144 else 128)
                         (if (b0 =? 244)%N then 143 else 191) b1
                && in_range 128 191 b2 && in_range 128 191 b3)%bool
            then push ((((b0 - 240) * 64 + (b1 - 128)) * 64 + (b2 - 128)) * 64
                       + (b3 - 128))%N
                      (decode l4)
            else None
        | _ => None
        end
      else None
  end.

(** A host in dotted form, the string [addr[0]]. *)
Definition host := String.string.

(** A datagram handed out by [recvfrom]: payload and [(host, port)]. *)
Record reply := { data : list N; addr : host * N }.

Inductive action :=
| SetBroadcast                  (* setsockopt(SOL_SOCKET, SO_BROADCAST, 1) *)
| SetTimeout (seconds : Z)      (* settimeout(2) *)
| GetPilot (to : host * N)      (* the getPilot query *)
| PrintSearching                (* Searching for WiZ bulbs on your network... *)
| PrintFound (h : host)         (* Found WiZ bulb at: ... *)
| PrintResponse (text : list N) (*   Response: ... *)
| PrintComplete                 (* Search complete. *)
| Close.                        (* sock.close() *)

Inductive exit := Normal | UnicodeDecodeError.

Definition broadcast : host * N := ("255.255.255.255"%string, 38899%N).

(** The [while True] loop.  [replies] are the datagrams that arrive each
    within the timeout of the one before; once they are used up
    [recvfrom] raises [socket.timeout], which the [except] clause turns
    into the closing message.  A payload that does not decode raises out
    of the loop after the address was printed. *)
Fixpoint listen (replies : list reply) : list action * exit :=
  match replies with
  | [] => ([PrintComplete], Normal)
  | r :: rest =>
      match decode (data r) with
      | Some text =>
          let '(acts, e) := listen rest in
          (PrintFound (fst (addr r)) :: PrintResponse text :: acts, e)
      | None => ([PrintFound (fst (addr r))], UnicodeDecodeError)
      end
  end.

(** The whole script; [finally] closes the socket on either exit. *)
Definition find_bulb (replies : list reply) : list action * exit :=
  let '(acts, e) := listen replies in
  ([SetBroadcast; SetTimeout 2; GetPilot broadcast; PrintSearching]
     ++ acts ++ [Close], e).

(** What the loop prints for a reply that decodes. *)
Definition report (r : reply) : list action :=
  match decode (data r) with
  | Some text => [PrintFound (fst (addr r)); PrintResponse text]
  | None => []
  end.

Definition decodes (r : reply) : Prop := decode (data r) <> None.

Definition is_found (h : host) (a : action) : bool :=
  match a with PrintFound h' => String.eqb h h' | _ => false end.

(** How often the address [h] is printed. *)
Definition found_count (h : host) (acts : list action) : nat :=
  List.length (filter (is_found h) acts).

(** Two bulbs answering with the text [{}]. *)
Definition bulb_a : reply :=
  {| data := [123; 125]%N; addr := ("192.168.1.50"%string, 38899%N) |}.
Definition bulb_b : reply :=
  {| data := [123; 125]%N; addr := ("192.168.1.51"%string, 38899%N) |}.

(** A datagram that is not text. *)
Definition garbled : reply :=
  {| data := [255; 254]%N; addr := ("192.168.1.77"%string, 38899%N) |}.

(** How many replies came from [h]. *)
Definition replies_from (h : host) (replies : list reply) : nat :=
  List.length (filter (fun r => String.eqb h (fst (addr r))) replies).

End FindBulb.

(** ** Definitions the statements use *)

(** The real-valued blend [0.75 * new + 0.25 * previous]. *)
Definition blend (n o : Z) : Q := (3 # 4) * inject_Z n + (1 # 4) * inject_Z o.

(** [z] is an integer nearest to [q], whatever the rule for ties. *)
Definition nearest_int (q : Q) (z : Z) : Prop := (Qabs (q - inject_Z z) <= 1 # 2)%Q.

(** How many of the four border bands hold the pixel at row [i], column [j]
    of an 80x45 image. *)
Definition band_count (i j : nat) : Z :=
  Z.b2z (i <? 5)%nat + Z.b2z (40 <=? i)%nat
  + Z.b2z (j <? 5)%nat + Z.b2z (75 <=? j)%nat.

(** The sum of [g k x] over the elements [x] of a list, [k] their index
    counted from [s]. *)
Fixpoint isum {A} (g : nat -> A -> Z) (s : nat) (l : list A) : Z :=
  match l with
  | [] => 0
  | x :: r => g s x + isum g (S s) r
  end.

(** A channel summed over the image, each pixel as often as it is sampled. *)
Definition band_sum (f : pixel -> Z) (img : image) : Z :=
  isum (fun i row => isum (fun j px => band_count i j * f px) 0%nat row) 0%nat img.

(** The number of sampled pixels: two bands of 5x80 and two of 45x5. *)
Definition edge_pixels : Z := 1250.

Definition shape_80x45 (img : image) : Prop :=
  length img = work_h /\ Forall (fun row => length row = work_w) img.

(** [l] with the element at index [k] replaced. *)
Fixpoint update {A} (k : nat) (x : A) (l : list A) : list A :=
  match l, k with
  | [], _ => []
  | _ :: r, O => x :: r
  | y :: r, S k' => y :: update k' x r
  end.

Definition set_pixel (img : image) (i j : nat) (px : pixel) : image :=
  match nth_error img i with
  | Some row => update i (update j px row) img
  | None => img
  end.

(** An 80x45 image with a border of thickness 5 in one colour and the
    interior in another. *)
Definition framed (border inner : pixel) : image :=
  let full := repeat border 80 in
  let mid := repeat border 5 ++ repeat inner 70 ++ repeat border 5 in
  repeat full 5 ++ repeat mid 35 ++ repeat full 5.

(** The smoothing sentence as the specification has it: every channel of
    the result is an integer nearest to the real-valued blend. *)
Definition smooth_rounds_to_nearest (new old : Z * Z * Z) : Prop :=
  let '(n1, n2, n3) := new in
  let '(o1, o2, o3) := old in
  exists z1 z2 z3,
    smooth_color [n1; n2; n3] [o1; o2; o3] alpha_default = Some [z1; z2; z3]
    /\ nearest_int (blend n1 o1) z1
    /\ nearest_int (blend n2 o2) z2
    /\ nearest_int (blend n3 o3) z3.

(** The previous colour an iteration leaves behind, if it completes. *)
Definition stored (r : option (state * list event)) : option (Z * Z * Z) :=
  match r with Some (st, _) => Some (last_color st) | None => None end.


(** The notice sentence as the specification has it: a miss prints the
    waiting notice exactly when the counter, once incremented, is a multiple
    of 10. *)
Definition waiting_on_multiples_of_10 (promo : promotion)
    (resample : image -> image) (st : state) (w : world) : Prop :=
  located w = None ->
  forall st' evs,
    iteration promo resample st w = Some (st', evs) ->
    (In (Print Waiting) evs <-> no_vlc_count st' mod 10 = 0).

(** A grey level scaled by 1.1, clamped to 255 and cut to an integer. *)
Definition boosted (c : Z) : Z := Z.min 255 (11 * c / 10).

(** A check of [f] on the [fuel] integers from [z] on. *)
Fixpoint all_from (fuel : nat) (z : Z) (f : Z -> bool) : bool :=
  match fuel with
  | O => true
  | S n => f z && all_from n (z + 1) f
  end.

(** The same on [0 .. n - 1]. *)
Definition all_below (n : Z) (f : Z -> bool) : bool := all_from (Z.to_nat n) 0 f.

(** The checks the evaluation lemmas run: the truncated binary64 quotient
    of [s] by [n] is its integer quotient; a smoothed channel is the floor
    of a quarter of [3 * n + o]; an enhanced grey is [boosted]. *)
Definition quotient_check (d : float) (n : Z) (s : Z) : bool :=
  match B64.trunc (B64.div (B64.of_Z s) d) with
  | Some q => (n * q <=? s) && (s <? n * q + n)
  | None => false
  end.

Definition smooth_check (n : Z) : bool :=
  all_below 256 (fun o =>
    match smooth_channel alpha_default (PyInt n) (PyInt o) with
    | Some z => (4 * z <=? 3 * n + o) && (3 * n + o <? 4 * z + 4)
    | None => false
    end).

Definition achromatic_check (p : promotion) (c : Z) : bool :=
  match enhance_color p c c c sat_boost_default val_boost_default with
  | Some (r, g, b) => (r =? boosted c) && (g =? boosted c) && (b =? boosted c)
  | None => false
  end.

(** Inputs for the examples: a grey frame, a window, and the answers of the
    outside world in an iteration that streams, one that finds no window and
    one whose capture fails. *)
Definition grey_frame : image := framed (128, 128, 128) (128, 128, 128).

Definition window : geometry :=
  {| at_x := 0; at_y := 0; size_w := 1920; size_h := 1080 |}.

Definition hit (ok : bool) : world :=
  {| located := Some window; captured := Some grey_frame;
     send_ok := ok; elapsed := 1 # 100 |}.

Definition miss : world :=
  {| located := None; captured := None; send_ok := true; elapsed := 0 |}.

Definition dropped_frame : world :=
  {| located := Some window; captured := None; send_ok := true; elapsed := 0 |}.

(** ** Text: what the scripts format and search *)

Module Text.

Import Ascii String.

(** [str(z)] of a Python [int], as an f-string and [json.dumps] write it. *)
Definition py_str (z : Z) : string :=
  DecimalString.NilZero.string_of_int (Z.to_int z).

(** [str.lower] on one character: [A-Z] go to [a-z].  No character outside
    ASCII lowers to a letter of ["vlc"], so this is all the test in
    [get_vlc_geometry] can see. *)
Definition lower_char (a : ascii) : ascii :=
  let n := nat_of_ascii a in
  if ((65 <=? n) && (n <=? 90))%nat then ascii_of_nat (n + 32) else a.

Fixpoint lower (s : string) : string :=
  match s with
  | EmptyString => EmptyString
  | String a r => String (lower_char a) (lower r)
  end.

(** [needle in hay]. *)
Fixpoint contains (needle hay : string) : bool :=
  prefix needle hay
  || match hay with
     | EmptyString => false
     | String _ r => contains needle r
     end.

(** A reader for what was written: the characters of a decimal integer, the
    longest run of them at the head of a string, the integer there, and a
    literal to be skipped. *)
Definition is_num (a : ascii) : bool :=
  (a =? "-")%char
  || ((48 <=? nat_of_ascii a) && (nat_of_ascii a <=? 57))%nat.

Fixpoint span_num (s : string) : string * string :=
  match s with
  | EmptyString => (EmptyString, EmptyString)
  | String a r =>
      if is_num a then let '(d, t) := span_num r in (String a d, t)
      else (EmptyString, s)
  end.

Fixpoint all_num (s : string) : bool :=
  match s with
  | EmptyString => true
  | String a r => is_num a && all_num r
  end.

(** The run of digits ends where [s] begins. *)
Definition stops (s : string) : bool :=
  match s with
  | EmptyString => true
  | String a _ => negb (is_num a)
  end.

Definition read_int (s : string) : option (Z * string) :=
  let '(d, t) := span_num s in
  match DecimalString.NilZero.int_of_string d with
  | Some i => Some (Z.of_int i, t)
  | None => None
  end.

Fixpoint expect (lit s : string) : option string :=
  match lit, s with
  | EmptyString, _ => Some s
  | String a l, String b r => if (a =? b)%char then expect l r else None
  | String _ _, EmptyString => None
  end.

(** The capitals of ["VLC"] and what stands before them in VLC's class. *)
Definition cap_v : ascii := "V"%char.
Definition cap_l : ascii := "L"%char.
Definition cap_c : ascii := "C"%char.
Definition videolan_prefix : string := "org.videolan."%string.

End Text.

(** ** [get_vlc_geometry] *)

Module Locator.

Import Ascii String.

(** One object of the array [hyprctl clients -j] prints, as far as the
    function looks at it: the keys may be missing, and the two arrays may be
    short.  Positions and sizes are integers. *)
Record client := {
  client_class : option string;
  client_at : option (list Z);
  client_size : option (list Z)
}.

(** [f"{at[0]},{at[1]} {size[0]}x{size[1]}"]. *)
Definition geometry_string (x y w h : Z) : string :=
  (Text.py_str x ++ "," ++ Text.py_str y ++ " "
     ++ Text.py_str w ++ "x" ++ Text.py_str h)%string.

(** ['vlc' in client.get('class', '').lower()]. *)
Definition is_vlc (c : client) : bool :=
  Text.contains "vlc"
    (Text.lower (match client_class c with Some s => s | None => ""%string end)).

(** The [for] loop.  The first client that matches ends it: with its
    geometry, or with the [KeyError] or [IndexError] of a missing entry,
    which the [except] clause turns into [None]. *)
Fixpoint scan (clients : list client) : option string :=
  match clients with
  | [] => None
  | c :: rest =>
      if is_vlc c then
        match client_at c, client_size c with
        | Some (x :: y :: _), Some (w :: h :: _) =>
            Some (geometry_string x y w h)
        | _, _ => None
        end
      else scan rest
  end.

(** [parsed] is what [json.loads(result.stdout)] gives, [None] when
    [subprocess.run] or the parser raised. *)
Definition get_vlc_geometry (parsed : option (list client)) : option string :=
  match parsed with
  | Some clients => scan clients
  | None => None
  end.

(** Clients for the examples: a browser, a client without any key, a VLC
    window, and one whose position array is short. *)
Definition browser : client :=
  {| client_class := Some "firefox"%string;
     client_at := Some [0; 0]; client_size := Some [1920; 1080] |}.
Definition nameless : client :=
  {| client_class := None; client_at := None; client_size := None |}.
Definition player : client :=
  {| client_class := Some "org.videolan.VLC"%string;
     client_at := Some [100; 50]; client_size := Some [1280; 720] |}.
Definition broken_player : client :=
  {| client_class := Some "vlc"%string;
     client_at := Some [100]; client_size := Some [1280; 720] |}.

(** The geometry read back from the string handed to [grim]. *)
Definition parse_geometry (s : string) : option (Z * Z * Z * Z) :=
  xr <- Text.read_int s ;;
  s1 <- Text.expect "," (snd xr) ;;
  yr <- Text.read_int s1 ;;
  s2 <- Text.expect " " (snd yr) ;;
  wr <- Text.read_int s2 ;;
  s3 <- Text.expect "x" (snd wr) ;;
  hr <- Text.read_int s3 ;;
  match snd hr with
  | EmptyString => Some (fst xr, fst yr, fst wr, fst hr)
  | _ => None
  end.

End Locator.

(** ** The datagram of [send_color_to_wiz] *)

Module Bulb.

Import Ascii String.

(** A JSON string literal of plain letters. *)
Definition quoted (s : string) : string :=
  String "034"%char (s ++ String "034"%char EmptyString).

(** [json.dumps(command).encode()]: keys in insertion order, [", "] and
    [": "] as separators, integers in decimal. *)
Definition head_text : string :=
  ("{" ++ quoted "method" ++ ": " ++ quoted "setPilot" ++ ", "
       ++ quoted "params" ++ ": {" ++ quoted "r" ++ ": ")%string.
Definition g_text : string := (", " ++ quoted "g" ++ ": ")%string.
Definition b_text : string := (", " ++ quoted "b" ++ ": ")%string.

Definition command_message (r g b : Z) : string :=
  (head_text ++ Text.py_str r ++ g_text ++ Text.py_str g
             ++ b_text ++ Text.py_str b ++ "}}")%string.

(** The colour read back from a datagram. *)
Definition parse_command (s : string) : option (Z * Z * Z) :=
  s1 <- Text.expect head_text s ;;
  rr <- Text.read_int s1 ;;
  s2 <- Text.expect g_text (snd rr) ;;
  gr <- Text.read_int s2 ;;
  s3 <- Text.expect b_text (snd gr) ;;
  br <- Text.read_int s3 ;;
  match Text.expect "}}" (snd br) with
  | Some EmptyString => Some (fst rr, fst gr, fst br)
  | _ => None
  end.

End Bulb.

(** ** More definitions the statements use *)

(** [smooth_color] applied [k] times against the same new colour. *)
Fixpoint settle (k : nat) (n o : Z) : option Z :=
  match k with
  | O => Some o
  | S k' =>
      o' <- smooth_channel alpha_default (PyInt n) (PyInt o) ;;
      settle k' n o'
  end.

(** The smoothed channel for every pair of channels, with a blend factor of
    1.0 and of 0.0. *)
Definition alpha_one_check (n : Z) : bool :=
  all_below 256 (fun o =>
    match smooth_channel (py_lit 1 1) (PyInt n) (PyInt o) with
    | Some z => z =? n
    | None => false
    end).

Definition alpha_zero_check (n : Z) : bool :=
  all_below 256 (fun o =>
    match smooth_channel (py_lit 0 1) (PyInt n) (PyInt o) with
    | Some z => z =? o
    | None => false
    end).

(** The three primaries at level [c], enhanced. *)
Definition primary_check (p : promotion) (c : Z) : bool :=
  match enhance p (c, 0, 0), enhance p (0, c, 0), enhance p (0, 0, c) with
  | Some x, Some y, Some z =>
      let '(r1, g1, b1) := x in
      let '(r2, g2, b2) := y in
      let '(r3, g3, b3) := z in
      (r1 =? boosted c) && (g1 =? 0) && (b1 =? 0)
      && (r2 =? 0) && (g2 =? boosted c) && (b2 =? 0)
      && (r3 =? 0) && (g3 =? 0) && (b3 =? boosted c)
  | _, _, _ => false
  end.

Definition is_waiting (e : event) : bool :=
  match e with Print Waiting => true | _ => false end.

(** How many waiting notices a trace holds. *)
Definition waiting_count (evs : list event) : Z :=
  Z.of_nat (length (filter is_waiting evs)).

(** An event that reaches the bulb or reports a colour. *)
Definition touches_bulb (e : event) : bool :=
  match e with
  | SetPilot _ _ _ | Print (Readout _ _ _) | Print SendFailed => true
  | _ => false
  end.

(** No frame in this iteration: no window, or no capture. *)
Definition no_frame (w : world) : Prop :=
  located w = None \/ captured w = None.

(** The border of an 80x45 image is of one colour: every pixel that a band
    holds is [border].  The interior is free. *)
Definition uniform_border (border : pixel) (img : image) : Prop :=
  forall (i j : nat) (row : list pixel) (px : pixel),
    nth_error img i = Some row -> nth_error row j = Some px ->
    0 < band_count i j -> px = border.

Definition pixel_eqb (a b : pixel) : bool :=
  (red a =? red b) && (green a =? green b) && (blue a =? blue b).

(** [g k x] holds for every element [x] of a list, [k] its index counted
    from [s]. *)
Fixpoint iall {A} (g : nat -> A -> bool) (s : nat) (l : list A) : bool :=
  match l with
  | [] => true
  | x :: r => g s x && iall g (S s) r
  end.

(** [uniform_border], decided. *)
Definition uniform_borderb (border : pixel) (img : image) : bool :=
  iall (fun i row =>
          iall (fun j px => (band_count i j =? 0) || pixel_eqb px border)
               0%nat row)
       0%nat img.

(** A frame with a border in one colour and an interior of several. *)
Definition mixed_frame : image :=
  set_pixel (set_pixel (framed (12, 200, 255) (90, 0, 7)) 10 10 (1, 2, 3))
            20 40 (255, 255, 255).

(** The discovery sentence as the specification has it, for whatever
    arrives: the script ends normally and has printed every address once
    for each reply that came from it. *)
Definition reports_every_reply (replies : list FindBulb.reply) : Prop :=
  snd (FindBulb.find_bulb replies) = FindBulb.Normal
  /\ forall h,
       FindBulb.found_count h (fst (FindBulb.find_bulb replies))
       = FindBulb.replies_from h replies.

(** * Properties *)

Lemma all_from_spec (f : Z -> bool) (fuel : nat) (z : Z) :
  all_from fuel z f = true ->
  forall k, z <= k < z + Z.of_nat fuel -> f k = true.
Proof.
  revert z; induction fuel as [|n IH]; intros z H k Hk.
  - simpl in Hk; lia.
  - cbn [all_from] in H. apply andb_prop in H as [Hz Hrest].
    destruct (Z.eq_dec k z) as [->|Hne]; [exact Hz|].
    apply (IH (z + 1)); [exact Hrest|lia].
Qed.

Lemma all_below_spec (f : Z -> bool) (n : Z) :
  all_below n f = true -> forall k, 0 <= k < n -> f k = true.
Proof.
  intros H k Hk. apply (all_from_spec f (Z.to_nat n) 0 H). lia.
Qed.

(** *** binary64 facts, by evaluation *)

Lemma mean_quotient_checked :
  all_below 318751 (quotient_check (B64.of_Z edge_pixels) edge_pixels) = true.
Proof. vm_compute. reflexivity. Qed.

Lemma smooth_channel_checked : all_below 256 smooth_check = true.
Proof. vm_compute. reflexivity. Qed.


Lemma mean_quotient (s : Z) :
  0 <= s <= 255 * edge_pixels ->
  B64.trunc (B64.div (B64.of_Z s) (B64.of_Z edge_pixels)) = Some (s / edge_pixels).
Proof.
  intros Hs.
  pose proof (all_below_spec _ _ mean_quotient_checked s) as H.
  unfold quotient_check in H.
  destruct (B64.trunc _) as [q|].
  - assert (Hq : (edge_pixels * q <=? s) && (s <? edge_pixels * q + edge_pixels) = true).
    { apply H. unfold edge_pixels in *. lia. }
    apply andb_prop in Hq as [Hlo Hhi].
    apply Z.leb_le in Hlo. apply Z.ltb_lt in Hhi.
    f_equal. unfold edge_pixels in *.
    apply (Z.div_unique s 1250 q (s - 1250 * q)); lia.
  - assert (Hq : false = true) by (apply H; unfold edge_pixels in *; lia).
    discriminate.
Qed.

Lemma smooth_channel_floor (n o : Z) :
  channel n -> channel o ->
  smooth_channel alpha_default (PyInt n) (PyInt o) = Some ((3 * n + o) / 4).
Proof.
  unfold channel. intros Hn Ho.
  pose proof (all_below_spec _ _ smooth_channel_checked n) as H.
  assert (Hc : smooth_check n = true) by (apply H; lia).
  pose proof (all_below_spec _ _ Hc o) as H'. cbv beta in H'.
  destruct (smooth_channel _ _ _) as [z|].
  - assert (Hz : (4 * z <=? 3 * n + o) && (3 * n + o <? 4 * z + 4) = true)
      by (apply H'; lia).
    apply andb_prop in Hz as [Hlo Hhi].
    apply Z.leb_le in Hlo. apply Z.ltb_lt in Hhi.
    f_equal. apply (Z.div_unique (3 * n + o) 4 z (3 * n + o - 4 * z)); lia.
  - assert (Hz : false = true) by (apply H'; lia). discriminate.
Qed.

Lemma smooth_color_floor (n1 n2 n3 o1 o2 o3 : Z) :
  channel n1 -> channel n2 -> channel n3 ->
  channel o1 -> channel o2 -> channel o3 ->
  smooth_color [n1; n2; n3] [o1; o2; o3] alpha_default
  = Some [(3 * n1 + o1) / 4; (3 * n2 + o2) / 4; (3 * n3 + o3) / 4].
Proof.
  intros. unfold smooth_color. cbn [combine map].
  rewrite !smooth_channel_floor by assumption. reflexivity.
Qed.

(** *** Sums over lists and over the border bands *)

Section Sums.

Context {A : Type}.
Implicit Types (f g : A -> Z) (l : list A).

Lemma sum_by_app f l l' : sum_by f (l ++ l') = sum_by f l + sum_by f l'.
Proof. induction l as [|x l IH]; cbn; [reflexivity | rewrite IH; lia]. Qed.

Lemma sum_by_concat f (ll : list (list A)) :
  sum_by f (concat ll) = sum_by (sum_by f) ll.
Proof.
  induction ll as [|l ll IH]; cbn; [reflexivity|].
  rewrite sum_by_app, IH. reflexivity.
Qed.

Lemma sum_by_ext_in f g l :
  (forall x, In x l -> f x = g x) -> sum_by f l = sum_by g l.
Proof.
  induction l as [|x l IH]; cbn; intros H; [reflexivity|].
  rewrite (H x), IH; auto.
Qed.

Lemma sum_by_bounds f l (hi : Z) :
  (forall x, In x l -> 0 <= f x <= hi) ->
  0 <= sum_by f l <= hi * Z.of_nat (length l).
Proof.
  induction l as [|x l IH]; intros H.
  - cbn. lia.
  - cbn [sum_by length].
    assert (Hx : 0 <= f x <= hi) by (apply H; left; reflexivity).
    assert (Hl : 0 <= sum_by f l <= hi * Z.of_nat (length l))
      by (apply IH; intros y Hy; apply H; right; exact Hy).
    rewrite Nat2Z.inj_succ. lia.
Qed.

Lemma isum_ext (u v : nat -> A -> Z) s l :
  (forall k x, u k x = v k x) -> isum u s l = isum v s l.
Proof.
  intros H. revert s; induction l as [|x l IH]; intros s; cbn;
    [reflexivity | rewrite H, IH; reflexivity].
Qed.

Lemma isum_plus (u v : nat -> A -> Z) s l :
  isum (fun k x => u k x + v k x) s l = isum u s l + isum v s l.
Proof.
  revert s; induction l as [|x l IH]; intros s; cbn;
    [reflexivity | rewrite IH; lia].
Qed.

Lemma isum_lt g (n s : nat) l :
  isum (fun k x => Z.b2z (k <? n)%nat * g x) s l = sum_by g (firstn (n - s) l).
Proof.
  revert s; induction l as [|x l IH]; intros s.
  - rewrite firstn_nil. reflexivity.
  - cbn [isum]. rewrite IH.
    destruct (Nat.ltb_spec s n) as [Hlt|Hge].
    + replace (n - s)%nat with (S (n - S s)) by lia.
      cbn [firstn sum_by Z.b2z]. lia.
    + replace (n - s)%nat with 0%nat by lia.
      replace (n - S s)%nat with 0%nat by lia.
      cbn [firstn sum_by Z.b2z]. lia.
Qed.

Lemma isum_ge g (m s : nat) l :
  isum (fun k x => Z.b2z (m <=? k)%nat * g x) s l = sum_by g (skipn (m - s) l).
Proof.
  revert s; induction l as [|x l IH]; intros s.
  - rewrite skipn_nil. reflexivity.
  - cbn [isum]. rewrite IH.
    destruct (Nat.leb_spec m s) as [Hle|Hgt].
    + replace (m - s)%nat with 0%nat by lia.
      replace (m - S s)%nat with 0%nat by lia.
      cbn [skipn sum_by Z.b2z]. lia.
    + replace (m - s)%nat with (S (m - S s)) by lia.
      cbn [skipn sum_by Z.b2z]. lia.
Qed.

Lemma isum_const g s l : isum (fun _ x => g x) s l = sum_by g l.
Proof.
  revert s; induction l as [|x l IH]; intros s; cbn;
    [reflexivity | rewrite IH; reflexivity].
Qed.

Lemma isum_scale (c : nat -> Z) g s l :
  (forall k, c k = c s) ->
  isum (fun k x => c k * g x) s l = c s * sum_by g l.
Proof.
  intros Hc. revert s Hc; induction l as [|x l IH]; intros s Hc; cbn.
  - lia.
  - rewrite (IH (S s)) by (intros k; rewrite !Hc; symmetry; apply Hc).
    rewrite (Hc (S s)). lia.
Qed.

End Sums.

Lemma sum_by_map {A B} (f : B -> Z) (h : A -> B) (l : list A) :
  sum_by f (map h l) = sum_by (fun x => f (h x)) l.
Proof. induction l as [|x l IH]; cbn; [reflexivity | rewrite IH; reflexivity]. Qed.

Lemma length_concat_uniform {A} (n : nat) (ll : list (list A)) :
  Forall (fun l => length l = n) ll -> length (concat ll) = (length ll * n)%nat.
Proof.
  induction 1 as [|l ll Hl _ IH]; cbn; [reflexivity|].
  rewrite length_app, IH, Hl. reflexivity.
Qed.

Lemma in_firstn {A} (n : nat) (l : list A) (x : A) : In x (firstn n l) -> In x l.
Proof.
  intros H. rewrite <- (firstn_skipn n l). apply in_or_app. left; exact H.
Qed.

Lemma in_skipn {A} (n : nat) (l : list A) (x : A) : In x (skipn n l) -> In x l.
Proof.
  intros H. rewrite <- (firstn_skipn n l). apply in_or_app. right; exact H.
Qed.

Lemma lastn_skipn {A} (k n : nat) (l : list A) :
  length l = n -> lastn k l = skipn (n - k) l.
Proof. intros <-. reflexivity. Qed.

Section Bands.

Variable img : image.
Hypothesis Hshape : shape_80x45 img.

Lemma rows_80 : forall row, In row img -> length row = 80%nat.
Proof. destruct Hshape as [_ H]. apply Forall_forall. exact H. Qed.

Lemma edges_length : Z.of_nat (length (edges img)) = edge_pixels.
Proof.
  destruct Hshape as [Hh Hw]. unfold work_h, work_w in *.
  unfold edges, top, bottom, left, right, edge_thickness.
  rewrite !length_app.
  rewrite (length_concat_uniform 80), (length_concat_uniform 80),
          (length_concat_uniform 5), (length_concat_uniform 5).
  - rewrite length_firstn, !length_map. unfold lastn.
    rewrite length_skipn, Hh. reflexivity.
  - apply Forall_forall. intros r Hr. apply in_map_iff in Hr as [row [<- Hin]].
    unfold lastn. rewrite length_skipn, (rows_80 row Hin). reflexivity.
  - apply Forall_forall. intros r Hr. apply in_map_iff in Hr as [row [<- Hin]].
    rewrite length_firstn, (rows_80 row Hin). reflexivity.
  - apply Forall_forall. intros r Hr. apply rows_80.
    unfold lastn in Hr. eapply in_skipn; exact Hr.
  - apply Forall_forall. intros r Hr. apply rows_80.
    eapply in_firstn; exact Hr.
Qed.

Lemma resize_same (resample : image -> image) : resize resample img = img.
Proof.
  destruct Hshape as [Hh Hw]. unfold resize, size.
  destruct img as [|row rows]; [discriminate Hh|].
  cbn [hd fst snd]. rewrite Hh.
  rewrite (Forall_inv Hw). reflexivity.
Qed.

Lemma edges_sum (f : pixel -> Z) : sum_by f (edges img) = band_sum f img.
Proof.
  destruct Hshape as [Hh Hw]. unfold work_h, work_w in *.
  unfold edges, top, bottom, left, right, edge_thickness.
  rewrite !sum_by_app, !sum_by_concat, !sum_by_map.
  rewrite (lastn_skipn 5 45 img Hh).
  rewrite (sum_by_ext_in (fun row => sum_by f (lastn 5 row))
                         (fun row => sum_by f (skipn 75 row)))
    by (intros row Hin; rewrite (lastn_skipn 5 80 row (rows_80 row Hin));
        reflexivity).
  unfold band_sum, band_count.
  rewrite (isum_ext _
    (fun i row =>
       (Z.b2z (i <? 5)%nat * sum_by f row + Z.b2z (40 <=? i)%nat * sum_by f row)
       + (sum_by f (firstn 5 row) + sum_by f (skipn 75 row)))).
  - rewrite !isum_plus.
    rewrite (isum_lt (sum_by f) 5 0), (isum_ge (sum_by f) 40 0).
    rewrite (isum_const (fun row => sum_by f (firstn 5 row))).
    rewrite (isum_const (fun row => sum_by f (skipn 75 row))).
    cbn [Nat.sub]. lia.
  - intros i row.
    rewrite (isum_ext _
      (fun j px =>
         (Z.b2z (i <? 5)%nat * f px + Z.b2z (40 <=? i)%nat * f px)
         + (Z.b2z (j <? 5)%nat * f px + Z.b2z (75 <=? j)%nat * f px)))
      by (intros; lia).
    rewrite !isum_plus.
    rewrite (isum_scale (fun _ => Z.b2z (i <? 5)%nat) f) by reflexivity.
    rewrite (isum_scale (fun _ => Z.b2z (40 <=? i)%nat) f) by reflexivity.
    rewrite (isum_lt f 5 0), (isum_ge f 75 0). reflexivity.
Qed.

Lemma edges_in (px : pixel) :
  In px (edges img) -> exists row, In row img /\ In px row.
Proof.
  unfold edges, top, bottom, left, right, lastn.
  rewrite !in_app_iff, !in_concat.
  intros [[r [Hr Hpx]] | [[r [Hr Hpx]] | [[r [Hr Hpx]] | [r [Hr Hpx]]]]].
  - exists r. split; [eapply in_firstn; exact Hr | exact Hpx].
  - exists r. split; [eapply in_skipn; exact Hr | exact Hpx].
  - apply in_map_iff in Hr as [row [<- Hin]].
    exists row. split; [exact Hin | eapply in_firstn; exact Hpx].
  - apply in_map_iff in Hr as [row [<- Hin]].
    exists row. split; [exact Hin | eapply in_skipn; exact Hpx].
Qed.

Hypothesis Hvalid : Forall (Forall valid_pixel) img.

Lemma edges_valid (px : pixel) : In px (edges img) -> valid_pixel px.
Proof.
  intros H. apply edges_in in H as [row [Hrow Hpx]].
  rewrite Forall_forall in Hvalid.
  specialize (Hvalid row Hrow). rewrite Forall_forall in Hvalid.
  apply Hvalid. exact Hpx.
Qed.

Lemma mean_int_edges (f : pixel -> Z) :
  (forall px, valid_pixel px -> channel (f px)) ->
  mean_int f (edges img) = Some (band_sum f img / edge_pixels).
Proof.
  intros Hf. unfold mean_int.
  rewrite edges_length, <- edges_sum.
  apply mean_quotient.
  rewrite <- edges_length.
  apply sum_by_bounds. intros px Hpx. apply Hf, edges_valid, Hpx.
Qed.

End Bands.

(** *** Replacing a pixel *)

Lemma length_update {A} (k : nat) (x : A) (l : list A) :
  length (update k x l) = length l.
Proof.
  revert k; induction l as [|y l IH]; intros [|k]; cbn; try reflexivity.
  rewrite IH. reflexivity.
Qed.

Lemma firstn_update {A} (n k : nat) (x : A) (l : list A) :
  (n <= k)%nat -> firstn n (update k x l) = firstn n l.
Proof.
  revert n k; induction l as [|y l IH]; intros n [|k] H; cbn; try reflexivity.
  - replace n with 0%nat by lia. reflexivity.
  - destruct n as [|n]; [reflexivity|]. cbn. rewrite IH by lia. reflexivity.
Qed.

Lemma skipn_update {A} (n k : nat) (x : A) (l : list A) :
  (k < n)%nat -> skipn n (update k x l) = skipn n l.
Proof.
  revert n k; induction l as [|y l IH]; intros n [|k] H; cbn; try reflexivity.
  - destruct n as [|n]; [lia | reflexivity].
  - destruct n as [|n]; [lia|]. cbn. apply IH. lia.
Qed.

Lemma map_update {A B} (h : A -> B) (k : nat) (x : A) (l : list A) :
  map h (update k x l) = update k (h x) (map h l).
Proof.
  revert k; induction l as [|y l IH]; intros [|k]; cbn; try reflexivity.
  rewrite IH. reflexivity.
Qed.

Lemma update_same {A} (k : nat) (x : A) (l : list A) :
  nth_error l k = Some x -> update k x l = l.
Proof.
  revert k; induction l as [|y l IH]; intros [|k] H; cbn in *;
    try discriminate.
  - congruence.
  - rewrite IH by exact H. reflexivity.
Qed.

Lemma update_in {A} (k : nat) (x : A) (l : list A) (y : A) :
  In y (update k x l) -> y = x \/ In y l.
Proof.
  revert k; induction l as [|z l IH]; intros [|k] H; cbn in *.
  - contradiction.
  - contradiction.
  - destruct H as [<-|H]; [left; reflexivity | right; right; exact H].
  - destruct H as [<-|H]; [right; left; reflexivity|].
    destruct (IH k H) as [->|Hin]; [left; reflexivity | right; right; exact Hin].
Qed.

Section Interior.

Variable img : image.
Hypothesis Hshape : shape_80x45 img.
Variables (i j : nat) (px : pixel).
Hypothesis Hi : (5 <= i <= 39)%nat.
Hypothesis Hj : (5 <= j <= 74)%nat.

Lemma set_pixel_shape : shape_80x45 (set_pixel img i j px).
Proof.
  destruct Hshape as [Hh Hw]. unfold set_pixel.
  destruct (nth_error img i) as [row|] eqn:Hrow; [|split; assumption].
  split.
  - rewrite length_update. exact Hh.
  - apply Forall_forall. intros r Hr.
    apply update_in in Hr as [->|Hr].
    + rewrite length_update. apply (rows_80 img Hshape).
      eapply nth_error_In; exact Hrow.
    + apply (rows_80 img Hshape). exact Hr.
Qed.

Lemma set_pixel_edges : edges (set_pixel img i j px) = edges img.
Proof.
  destruct Hshape as [Hh Hw]. unfold work_h, work_w in *. unfold set_pixel.
  destruct (nth_error img i) as [row|] eqn:Hrow; [|reflexivity].
  assert (Hlen : length row = 80%nat)
    by (apply (rows_80 img Hshape); eapply nth_error_In; exact Hrow).
  unfold edges, top, bottom, left, right, lastn, edge_thickness.
  rewrite length_update, Hh.
  rewrite firstn_update by lia.
  rewrite skipn_update by lia.
  rewrite !map_update.
  rewrite length_update, Hlen.
  rewrite firstn_update by lia.
  rewrite skipn_update by lia.
  rewrite <- Hlen.
  rewrite (update_same i (firstn 5 row)), (update_same i (skipn (length row - 5) row)).
  - reflexivity.
  - rewrite nth_error_map, Hrow. reflexivity.
  - rewrite nth_error_map, Hrow. reflexivity.
Qed.

End Interior.

(** ** Smoothing *)

Lemma Qfloor_blend (n o : Z) : Qfloor (blend n o) = (3 * n + o) / 4.
Proof.
  unfold blend, Qfloor, Qplus, Qmult, inject_Z. cbn [Qnum Qden].
  change (Zpos (4 * 1 * (4 * 1))) with (4 * 4).
  change (Zpos (4 * 1)) with 4.
  replace (3 * n * 4 + 1 * o * 4) with ((3 * n + o) * 4) by lia.
  apply Z.div_mul_cancel_r; lia.
Qed.

(** C3 (as amended): for colours with channels in [0,255], every channel of
    the smoothed colour is the real-valued blend [0.75 * new + 0.25 *
    previous] truncated to an integer (its floor), not rounded to the
    nearest one. *)
Theorem smooth_color_truncates (n1 n2 n3 o1 o2 o3 : Z) :
  channel n1 -> channel n2 -> channel n3 ->
  channel o1 -> channel o2 -> channel o3 ->
  smooth_color [n1; n2; n3] [o1; o2; o3] alpha_default
  = Some [Qfloor (blend n1 o1); Qfloor (blend n2 o2); Qfloor (blend n3 o3)].
Proof.
  intros. rewrite !Qfloor_blend. apply smooth_color_floor; assumption.
Qed.

Lemma smooth_color_truncates_witness :
  smooth_color [1; 255; 100] [0; 0; 7] alpha_default
  = Some [Qfloor (blend 1 0); Qfloor (blend 255 0); Qfloor (blend 100 7)].
Proof.
  apply (smooth_color_truncates 1 255 100 0 0 7); unfold channel; lia.
Defined.

(** C3 as stated fails: new (1, 255, 100) over previous (0, 0, 7) blends to
    (0.75, 191.25, 76.75) and smooths to (0, 191, 76); 0 is not an integer
    nearest to 0.75. *)
Lemma smooth_color_not_nearest :
  ~ smooth_rounds_to_nearest (1, 255, 100) (0, 0, 7).
Proof.
  intros (z1 & z2 & z3 & Hs & H1 & _).
  vm_compute in Hs. injection Hs as <- _ _.
  vm_compute in H1. apply H1. reflexivity.
Qed.

(** C10: a steady signal is a fixed point of smoothing: for every colour
    [c] with channels in [0,255], [smooth_color(c, c, 0.75) = c]. *)
Theorem smooth_color_steady (c1 c2 c3 : Z) :
  channel c1 -> channel c2 -> channel c3 ->
  smooth_color [c1; c2; c3] [c1; c2; c3] alpha_default = Some [c1; c2; c3].
Proof.
  intros. rewrite smooth_color_floor by assumption.
  assert (E : forall c, (3 * c + c) / 4 = c).
  { intros c. replace (3 * c + c) with (c * 4) by lia. apply Z.div_mul. lia. }
  rewrite !E. reflexivity.
Qed.

Lemma smooth_color_steady_witness :
  smooth_color [0; 128; 255] [0; 128; 255] alpha_default = Some [0; 128; 255].
Proof.
  apply (smooth_color_steady 0 128 255); unfold channel; lia.
Defined.

(** ** Edge average *)

Lemma Forall_repeat {A} (P : A -> Prop) (x : A) (n : nat) :
  P x -> Forall P (repeat x n).
Proof. intros H. induction n; cbn; constructor; assumption. Qed.

Lemma framed_shape (border inner : pixel) : shape_80x45 (framed border inner).
Proof.
  split; [reflexivity|]. unfold framed.
  repeat (apply Forall_app; split); apply Forall_repeat; reflexivity.
Qed.

Lemma framed_valid (border inner : pixel) :
  valid_pixel border -> valid_pixel inner ->
  Forall (Forall valid_pixel) (framed border inner).
Proof.
  intros Hb Hi. unfold framed.
  repeat (apply Forall_app; split); apply Forall_repeat;
    repeat (apply Forall_app; split); apply Forall_repeat; assumption.
Qed.

(** C4: for every 80x45 image the edge average is, per channel, the sum
    over the four border bands of thickness 5 (every pixel counted once for
    each band that holds it, 1250 samples in all) divided by 1250 and cut to
    an integer; replacing an interior pixel (rows 5..39, columns 5..74)
    leaves the result as it was. *)
Theorem edge_average_border_mean (resample : image -> image) (img : image) :
  shape_80x45 img ->
  Forall (Forall valid_pixel) img ->
  extract_edge_average resample img
  = Some (band_sum red img / edge_pixels,
          band_sum green img / edge_pixels,
          band_sum blue img / edge_pixels)
  /\ forall (i j : nat) (px : pixel),
       (5 <= i <= 39)%nat -> (5 <= j <= 74)%nat ->
       extract_edge_average resample (set_pixel img i j px)
       = extract_edge_average resample img.
Proof.
  intros Hshape Hvalid. split.
  - unfold extract_edge_average. rewrite (resize_same img Hshape).
    rewrite (mean_int_edges img Hshape Hvalid red),
            (mean_int_edges img Hshape Hvalid green),
            (mean_int_edges img Hshape Hvalid blue);
      [reflexivity | | |]; intros px (Hr & Hg & Hb); assumption.
  - intros i j px Hi Hj. unfold extract_edge_average.
    rewrite (resize_same img Hshape).
    rewrite (resize_same _ (set_pixel_shape img Hshape i j px)).
    rewrite (set_pixel_edges img Hshape i j px Hi Hj). reflexivity.
Qed.

Lemma edge_average_border_mean_witness :
  let img := framed (200, 100, 50) (0, 0, 255) in
  extract_edge_average (fun a => a) img
  = Some (band_sum red img / edge_pixels,
          band_sum green img / edge_pixels,
          band_sum blue img / edge_pixels)
  /\ forall (i j : nat) (px : pixel),
       (5 <= i <= 39)%nat -> (5 <= j <= 74)%nat ->
       extract_edge_average (fun a => a) (set_pixel img i j px)
       = extract_edge_average (fun a => a) img.
Proof.
  apply (edge_average_border_mean (fun a => a) (framed (200, 100, 50) (0, 0, 255))).
  - apply framed_shape.
  - apply framed_valid; unfold valid_pixel, channel; cbn; lia.
Defined.

(** The interior does not show: a border in one colour gives that colour. *)
Example edge_average_framed :
  extract_edge_average (fun a => a) (framed (200, 100, 50) (0, 0, 255))
  = Some (200, 100, 50).
Proof. vm_compute. reflexivity. Qed.

(** ** Enhancement *)

Lemma achromatic_checked (p : promotion) :
  all_below 256 (achromatic_check p) = true.
Proof. destruct p; vm_compute; reflexivity. Qed.

(** C5: for every achromatic input [r = g = b = c] in [0,255] the enhanced
    colour is achromatic, its three channels being [c] scaled by 1.1,
    clamped to 255 and cut to an integer; (128,128,128) gives 140 thrice. *)
Theorem enhance_achromatic (p : promotion) (c : Z) :
  channel c ->
  enhance_color p c c c sat_boost_default val_boost_default
  = Some (boosted c, boosted c, boosted c).
Proof.
  unfold channel. intros Hc.
  pose proof (all_below_spec _ _ (achromatic_checked p) c) as H.
  unfold achromatic_check in H.
  destruct (enhance_color p c c c _ _) as [[[r g] b]|].
  - assert (E : (r =? boosted c) && (g =? boosted c) && (b =? boosted c) = true)
      by (apply H; lia).
    apply andb_prop in E as [E Eb]. apply andb_prop in E as [Er Eg].
    apply Z.eqb_eq in Er, Eg, Eb. subst. reflexivity.
  - assert (E : false = true) by (apply H; lia). discriminate.
Qed.

Lemma enhance_achromatic_witness :
  enhance_color NEP50 128 128 128 sat_boost_default val_boost_default
  = Some (boosted 128, boosted 128, boosted 128).
Proof. apply (enhance_achromatic NEP50 128). unfold channel. lia. Defined.

Example enhance_grey_128 (p : promotion) : enhance p (128, 128, 128) = Some (140, 140, 140).
Proof. destruct p; vm_compute; reflexivity. Qed.

(** C8: enhancing twice is not enhancing once: (100,150,200) is a colour
    with channels in [0,255] whose enhancement, enhanced again, differs from
    its enhancement. *)
Theorem enhance_not_idempotent (p : promotion) :
  exists r g b c1 c2,
    channel r /\ channel g /\ channel b
    /\ enhance p (r, g, b) = Some c1
    /\ enhance p c1 = Some c2
    /\ c2 <> c1.
Proof.
  exists 100, 150, 200.
  destruct p.
  - exists (66, 142, 220), (4, 121, 242).
    unfold channel. repeat split; try lia; try (vm_compute; reflexivity).
    discriminate.
  - exists (66, 143, 220), (4, 123, 242).
    unfold channel. repeat split; try lia; try (vm_compute; reflexivity).
    discriminate.
Qed.

(** ** The control loop *)

Section Loop.

Variable promo : promotion.
Variable resample : image -> image.

Lemma iteration_streaming st w geo img :
  located w = Some geo -> captured w = Some img ->
  stored (iteration promo resample st w)
  = transform promo resample img (last_color st).
Proof.
  intros Hloc Hcap. unfold iteration. rewrite Hloc, Hcap.
  destruct (0 <? no_vlc_count st);
    (destruct (transform _ _ _ _) as [[[r g] b]|]; cbn;
     [destruct (send_ok w); reflexivity | reflexivity]).
Qed.


End Loop.




(** C2 (as amended): while the locator finds no window, an iteration adds
    one to the miss counter and prints the waiting notice exactly when the
    counter, once incremented, is 1 modulo 10: on the 1st, 11th, 21st, ...
    miss in a row. *)
Theorem waiting_notice_every_tenth (promo : promotion)
    (resample : image -> image) (st : state) (w : world) :
  located w = None ->
  exists evs,
    iteration promo resample st w
    = Some ({| last_color := last_color st;
               no_vlc_count := no_vlc_count st + 1 |}, evs)
    /\ (In (Print Waiting) evs <-> (no_vlc_count st + 1) mod 10 = 1).
Proof.
  intros Hloc. unfold iteration. rewrite Hloc.
  eexists. split; [reflexivity|].
  destruct (Z.eqb_spec ((no_vlc_count st + 1) mod 10) 1) as [E|E]; cbn.
  - split; [intros _; exact E | intros _; right; left; reflexivity].
  - split; [|intros E'; contradiction].
    intros [H|[H|[]]]; discriminate H.
Qed.

Lemma waiting_notice_every_tenth_witness :
  exists evs,
    iteration NEP50 (fun a => a) initial miss
    = Some ({| last_color := last_color initial;
               no_vlc_count := no_vlc_count initial + 1 |}, evs)
    /\ (In (Print Waiting) evs <-> (no_vlc_count initial + 1) mod 10 = 1).
Proof.
  apply (waiting_notice_every_tenth NEP50 (fun a => a) initial miss).
  reflexivity.
Defined.

(** C2 as stated fails: the very first miss prints the notice, with the
    counter at 1. *)
Lemma waiting_notice_not_on_multiples :
  ~ waiting_on_multiples_of_10 NEP50 (fun a => a) initial miss.
Proof.
  intros H. specialize (H eq_refl _ _ eq_refl).
  cbn in H. destruct H as [H _].
  discriminate H. right. left. reflexivity.
Qed.

(** C6: in a streaming iteration whose capture succeeded, the previous
    colour stored for the next cycle is the enhanced colour whether the send
    to the bulb succeeded or failed; the two runs store the same. *)
Theorem previous_color_ignores_send (promo : promotion)
    (resample : image -> image) (st : state) (w1 w2 : world)
    (geo : geometry) (img : image) :
  located w1 = Some geo -> captured w1 = Some img -> send_ok w1 = true ->
  located w2 = Some geo -> captured w2 = Some img -> send_ok w2 = false ->
  stored (iteration promo resample st w1) = transform promo resample img (last_color st)
  /\ stored (iteration promo resample st w2) = stored (iteration promo resample st w1).
Proof.
  intros L1 C1 _ L2 C2 _.
  rewrite (iteration_streaming promo resample st w1 geo img L1 C1).
  rewrite (iteration_streaming promo resample st w2 geo img L2 C2).
  split; reflexivity.
Qed.

Lemma previous_color_ignores_send_witness :
  stored (iteration NEP50 (fun a => a) initial (hit true))
  = transform NEP50 (fun a => a) grey_frame (last_color initial)
  /\ stored (iteration NEP50 (fun a => a) initial (hit false))
     = stored (iteration NEP50 (fun a => a) initial (hit true)).
Proof.
  apply (previous_color_ignores_send NEP50 (fun a => a) initial
           (hit true) (hit false) window grey_frame); reflexivity.
Defined.

(** Both runs do store a colour: (105,105,105) for the grey frame. *)
Example send_failure_keeps_tracking :
  iteration NEP50 (fun a => a) initial (hit false)
  = Some ({| last_color := (105, 105, 105); no_vlc_count := 0 |},
          [Query; Grab window; Print SendFailed; Sleep (sleep_time (1 # 100))])
  /\ iteration NEP50 (fun a => a) initial (hit true)
     = Some ({| last_color := (105, 105, 105); no_vlc_count := 0 |},
             [Query; Grab window; SetPilot 105 105 105;
              Print (Readout 105 105 105); Sleep (sleep_time (1 # 100))]).
Proof. split; vm_compute; reflexivity. Qed.

(** C7: when the capture fails the iteration is skipped: it completes
    whatever the colour transform would do, sends nothing to the bulb,
    prints no colour, and leaves the previous colour as it was. *)
Theorem capture_failure_skips_cycle (promo : promotion)
    (resample : image -> image) (st : state) (w : world) (geo : geometry) :
  located w = Some geo -> captured w = None ->
  exists st' evs,
    iteration promo resample st w = Some (st', evs)
    /\ last_color st' = last_color st
    /\ (forall e, In e evs ->
          e = Query \/ e = Print Detected \/ e = Grab geo
          \/ e = Sleep frame_delay)
    /\ (forall promo' resample',
          iteration promo' resample' st w = Some (st', evs)).
Proof.
  intros Hloc Hcap. unfold iteration. rewrite Hloc, Hcap.
  destruct (0 <? no_vlc_count st); do 2 eexists;
    (split; [reflexivity|]); (split; [reflexivity|]); split;
    try (intros; reflexivity); cbn; intros e He;
    repeat (destruct He as [<-|He]; [tauto|]); contradiction.
Qed.

Lemma capture_failure_skips_cycle_witness :
  exists st' evs,
    iteration NEP50 (fun a => a) initial dropped_frame = Some (st', evs)
    /\ last_color st' = last_color initial
    /\ (forall e, In e evs ->
          e = Query \/ e = Print Detected \/ e = Grab window
          \/ e = Sleep frame_delay)
    /\ (forall promo' resample',
          iteration promo' resample' initial dropped_frame = Some (st', evs)).
Proof.
  apply (capture_failure_skips_cycle NEP50 (fun a => a) initial dropped_frame
           window); reflexivity.
Defined.

(** ** Discovery *)

Section Discovery.

Import FindBulb.

Lemma found_count_app (h : host) (a b : list action) :
  found_count h (a ++ b) = (found_count h a + found_count h b)%nat.
Proof. unfold found_count. rewrite filter_app, length_app. reflexivity. Qed.

Lemma listen_decoded (replies : list reply) :
  Forall decodes replies ->
  listen replies = (flat_map report replies ++ [PrintComplete], Normal).
Proof.
  induction 1 as [|r rest Hr _ IH]; [reflexivity|].
  cbn [listen flat_map]. unfold report at 1. unfold decodes in Hr.
  destruct (decode (data r)) as [text|]; [|contradiction].
  rewrite IH. reflexivity.
Qed.

Lemma found_count_reports (h : host) (replies : list reply) :
  Forall decodes replies ->
  found_count h (flat_map report replies) = replies_from h replies.
Proof.
  induction 1 as [|r rest Hr _ IH]; [reflexivity|].
  cbn [flat_map]. rewrite found_count_app, IH.
  unfold report, decodes, replies_from in *.
  destruct (decode (data r)) as [text|]; [|contradiction].
  unfold found_count. cbn [filter is_found].
  destruct (String.eqb h (fst (addr r))); reflexivity.
Qed.

End Discovery.

(** C9 (as amended): when every payload that arrives is valid UTF-8 text,
    the discovery script prints the address and the payload of every reply,
    once each and in order of arrival, and when the 2-second timeout ends
    the wait it prints the closing message, closes the socket and exits
    normally; two responders at distinct addresses that reply once each are
    printed once each. *)
Theorem discovery_until_timeout (replies : list FindBulb.reply) :
  Forall FindBulb.decodes replies ->
  FindBulb.find_bulb replies
  = ([FindBulb.SetBroadcast; FindBulb.SetTimeout 2;
      FindBulb.GetPilot FindBulb.broadcast; FindBulb.PrintSearching]
       ++ flat_map FindBulb.report replies
       ++ [FindBulb.PrintComplete; FindBulb.Close],
     FindBulb.Normal)
  /\ (forall h,
        FindBulb.found_count h (fst (FindBulb.find_bulb replies))
        = FindBulb.replies_from h replies)
  /\ (forall r1 r2,
        replies = [r1; r2] ->
        fst (FindBulb.addr r1) <> fst (FindBulb.addr r2) ->
        FindBulb.found_count (fst (FindBulb.addr r1))
          (fst (FindBulb.find_bulb replies)) = 1%nat
        /\ FindBulb.found_count (fst (FindBulb.addr r2))
             (fst (FindBulb.find_bulb replies)) = 1%nat).
Proof.
  intros Hdec.
  assert (E : FindBulb.find_bulb replies
              = ([FindBulb.SetBroadcast; FindBulb.SetTimeout 2;
                  FindBulb.GetPilot FindBulb.broadcast; FindBulb.PrintSearching]
                   ++ flat_map FindBulb.report replies
                   ++ [FindBulb.PrintComplete; FindBulb.Close],
                 FindBulb.Normal)).
  { unfold FindBulb.find_bulb. rewrite (listen_decoded replies Hdec).
    rewrite <- app_assoc. reflexivity. }
  assert (C : forall h,
             FindBulb.found_count h (fst (FindBulb.find_bulb replies))
             = FindBulb.replies_from h replies).
  { intros h. rewrite E. cbn [fst].
    rewrite !found_count_app, (found_count_reports h replies Hdec).
    cbn. lia. }
  split; [exact E|]. split; [exact C|].
  intros r1 r2 -> Hne. rewrite !C. unfold FindBulb.replies_from.
  cbn [filter]. rewrite !String.eqb_refl.
  destruct (String.eqb_spec (fst (FindBulb.addr r1)) (fst (FindBulb.addr r2)))
    as [Heq|_]; [contradiction|].
  destruct (String.eqb_spec (fst (FindBulb.addr r2)) (fst (FindBulb.addr r1)))
    as [Heq|_]; [symmetry in Heq; contradiction|].
  split; reflexivity.
Qed.

Lemma discovery_until_timeout_witness :
  let replies := [FindBulb.bulb_a; FindBulb.bulb_b] in
  FindBulb.find_bulb replies
  = ([FindBulb.SetBroadcast; FindBulb.SetTimeout 2;
      FindBulb.GetPilot FindBulb.broadcast; FindBulb.PrintSearching]
       ++ flat_map FindBulb.report replies
       ++ [FindBulb.PrintComplete; FindBulb.Close],
     FindBulb.Normal)
  /\ (forall h,
        FindBulb.found_count h (fst (FindBulb.find_bulb replies))
        = FindBulb.replies_from h replies)
  /\ (forall r1 r2,
        replies = [r1; r2] ->
        fst (FindBulb.addr r1) <> fst (FindBulb.addr r2) ->
        FindBulb.found_count (fst (FindBulb.addr r1))
          (fst (FindBulb.find_bulb replies)) = 1%nat
        /\ FindBulb.found_count (fst (FindBulb.addr r2))
             (fst (FindBulb.find_bulb replies)) = 1%nat).
Proof.
  apply (discovery_until_timeout [FindBulb.bulb_a; FindBulb.bulb_b]).
  repeat constructor; unfold FindBulb.decodes; cbn; discriminate.
Defined.

(** C9 as stated fails: of two responders at distinct addresses that reply
    once each, the first with a payload that is not UTF-8, only the first
    address is printed; the script ends with the exception and the second
    reply is never read. *)
Lemma discovery_not_every_reply :
  ~ reports_every_reply [FindBulb.garbled; FindBulb.bulb_b].
Proof.
  intros [H _]. vm_compute in H. discriminate H.
Qed.

(** A payload that is not text ends the script with an exception, after the
    address was printed and with the socket closed. *)
Example discovery_undecodable :
  FindBulb.find_bulb [{| FindBulb.data := [255%N];
                         FindBulb.addr := FindBulb.addr FindBulb.bulb_a |}]
  = ([FindBulb.SetBroadcast; FindBulb.SetTimeout 2;
      FindBulb.GetPilot FindBulb.broadcast; FindBulb.PrintSearching;
      FindBulb.PrintFound (fst (FindBulb.addr FindBulb.bulb_a));
      FindBulb.Close],
     FindBulb.UnicodeDecodeError).
Proof. reflexivity. Qed.

(** ** A run of the loop *)

(** Two misses, then the window appears: one waiting notice (on the first
    miss), one detected notice, the counter back at 0, and the first colour
    on its way. *)
Example two_misses_then_found :
  run NEP50 (fun a => a) initial [miss; miss; hit true]
  = Some ({| last_color := (105, 105, 105); no_vlc_count := 0 |},
          [Query; Print Waiting; Sleep 1;
           Query; Sleep 1;
           Query; Print Detected; Grab window; SetPilot 105 105 105;
           Print (Readout 105 105 105); Sleep (sleep_time (1 # 100))]).
Proof. vm_compute. reflexivity. Qed.

(** ** Text written and read back *)

Section TextFacts.

Import Ascii String.

Lemma all_num_uint (d : Decimal.uint) :
  Text.all_num (DecimalString.NilEmpty.string_of_uint d) = true.
Proof. induction d; cbn; auto. Qed.

Lemma all_num_uint0 (d : Decimal.uint) :
  Text.all_num (DecimalString.NilZero.string_of_uint d) = true.
Proof.
  destruct d; try reflexivity;
    apply (all_num_uint (_ d)) || apply all_num_uint.
Qed.

Lemma all_num_py_str (z : Z) : Text.all_num (Text.py_str z) = true.
Proof.
  unfold Text.py_str. destruct z as [|p|p]; cbn [Z.to_int].
  - reflexivity.
  - apply all_num_uint0.
  - cbn [DecimalString.NilZero.string_of_int Text.all_num].
    rewrite all_num_uint0. reflexivity.
Qed.

Lemma int_of_py_str (z : Z) :
  DecimalString.NilZero.int_of_string (Text.py_str z) = Some (Z.to_int z).
Proof.
  unfold Text.py_str. apply DecimalString.NilZero.isi.
  - destruct z as [|p|p]; cbn; try discriminate.
    intros [= H]. exact (DecimalPos.Unsigned.to_uint_nonnil p H).
  - destruct z as [|p|p]; cbn; try discriminate.
    intros [= H]. exact (DecimalPos.Unsigned.to_uint_nonnil p H).
Qed.

Lemma span_num_app (s t : string) :
  Text.all_num s = true -> Text.stops t = true ->
  Text.span_num (s ++ t) = (s, t).
Proof.
  induction s as [|a s IH]; cbn [append Text.all_num]; intros Hs Ht.
  - destruct t as [|b t]; [reflexivity|]. cbn in *.
    apply negb_true_iff in Ht. rewrite Ht. reflexivity.
  - apply andb_prop in Hs as [Ha Hs]. cbn [Text.span_num].
    rewrite Ha, (IH Hs Ht). reflexivity.
Qed.

Lemma read_int_py_str (z : Z) (t : string) :
  Text.stops t = true -> Text.read_int (Text.py_str z ++ t) = Some (z, t).
Proof.
  intros Ht. unfold Text.read_int.
  rewrite (span_num_app _ _ (all_num_py_str z) Ht).
  rewrite int_of_py_str, DecimalZ.of_to. reflexivity.
Qed.

Lemma expect_app (lit s : string) : Text.expect lit (lit ++ s) = Some s.
Proof.
  induction lit as [|a lit IH]; cbn; [destruct s; reflexivity|].
  rewrite Ascii.eqb_refl. exact IH.
Qed.

Lemma string_app_nil_r (s : string) : (s ++ EmptyString)%string = s.
Proof. induction s as [|a s IH]; cbn; [reflexivity | rewrite IH; reflexivity]. Qed.

Lemma py_str_nonempty (z : Z) : Text.py_str z <> EmptyString.
Proof.
  intros H. pose proof (int_of_py_str z) as E. rewrite H in E. discriminate E.
Qed.

Lemma lower_app (s t : string) :
  Text.lower (s ++ t) = (Text.lower s ++ Text.lower t)%string.
Proof. induction s as [|a s IH]; cbn; [reflexivity | rewrite IH; reflexivity]. Qed.

Lemma prefix_app (n t : string) : prefix n (n ++ t) = true.
Proof.
  induction n as [|a n IH]; cbn; [destruct t; reflexivity|].
  destruct (ascii_dec a a) as [_|H]; [exact IH | contradiction].
Qed.

Lemma contains_app (n s t : string) : Text.contains n (s ++ n ++ t) = true.
Proof.
  induction s as [|a s IH].
  - cbn [append]. destruct (n ++ t)%string eqn:E; cbn [Text.contains];
      rewrite <- E, prefix_app; reflexivity.
  - cbn [append Text.contains]. rewrite IH. apply orb_true_r.
Qed.

End TextFacts.

(** ** The datagram *)

(** X1: the datagram of [send_color_to_wiz] reads back to the three
    integers it was built from, whatever they are, so two colours never
    share a datagram. *)
Theorem command_message_round_trip (r g b : Z) :
  Bulb.parse_command (Bulb.command_message r g b) = Some (r, g, b)
  /\ forall r' g' b',
       Bulb.command_message r g b = Bulb.command_message r' g' b' ->
       (r, g, b) = (r', g', b').
Proof.
  assert (R : forall r g b,
             Bulb.parse_command (Bulb.command_message r g b) = Some (r, g, b)).
  { clear. intros r g b. unfold Bulb.parse_command, Bulb.command_message.
    rewrite expect_app. cbn [bind].
    rewrite read_int_py_str by reflexivity. cbn [bind snd fst].
    rewrite expect_app. cbn [bind].
    rewrite read_int_py_str by reflexivity. cbn [bind snd fst].
    rewrite expect_app. cbn [bind].
    rewrite read_int_py_str by reflexivity. cbn [bind snd fst].
    reflexivity. }
  split; [apply R|].
  intros r' g' b' E.
  pose proof (R r g b) as H. rewrite E, R in H. congruence.
Qed.

(** ** The window locator *)

Section LocatorFacts.

Import Locator.

Lemma scan_skip (pre rest : list client) :
  Forall (fun c => is_vlc c = false) pre -> scan (pre ++ rest) = scan rest.
Proof.
  induction 1 as [|c pre Hc _ IH]; [reflexivity|].
  cbn [app scan]. rewrite Hc. exact IH.
Qed.

End LocatorFacts.

(** X2: [get_vlc_geometry] answers with the geometry of the first client
    whose class contains "vlc", whatever follows it in the list. *)
Theorem locator_first_match (pre post : list Locator.client)
    (c : Locator.client) (x y w h : Z) (ra rs : list Z) :
  Forall (fun c => Locator.is_vlc c = false) pre ->
  Locator.is_vlc c = true ->
  Locator.client_at c = Some (x :: y :: ra) ->
  Locator.client_size c = Some (w :: h :: rs) ->
  Locator.get_vlc_geometry (Some (pre ++ c :: post))
  = Some (Locator.geometry_string x y w h).
Proof.
  intros Hpre Hc Hat Hsize. cbn [Locator.get_vlc_geometry].
  rewrite (scan_skip pre _ Hpre). cbn [Locator.scan].
  rewrite Hc, Hat, Hsize. reflexivity.
Qed.

(** X3: when the first client whose class contains "vlc" lacks [at] or
    [size], or has fewer than two numbers in one of them, the answer is
    "not found", even if a later client is a complete VLC window. *)
Theorem locator_broken_match_hides_later (pre post : list Locator.client)
    (c : Locator.client) :
  Forall (fun c => Locator.is_vlc c = false) pre ->
  Locator.is_vlc c = true ->
  (forall x y r, Locator.client_at c <> Some (x :: y :: r))
  \/ (forall w h r, Locator.client_size c <> Some (w :: h :: r)) ->
  Locator.get_vlc_geometry (Some (pre ++ c :: post)) = None.
Proof.
  intros Hpre Hc Hbad. cbn [Locator.get_vlc_geometry].
  rewrite (scan_skip pre _ Hpre). cbn [Locator.scan]. rewrite Hc.
  destruct (Locator.client_at c) as [[|x [|y ra]]|];
    destruct (Locator.client_size c) as [[|w [|h rs]]|]; try reflexivity.
  destruct Hbad as [H|H]; [destruct (H x y ra) | destruct (H w h rs)];
    reflexivity.
Qed.

(** X4: [get_vlc_geometry] finds nothing when no client's class contains
    "vlc": clients without a class are passed over, and an empty list or a
    failed query gives "not found" as well; and whenever it does answer, the
    answer comes from a client of the list whose class contains "vlc". *)
Theorem locator_not_found (clients : list Locator.client) :
  (Forall (fun c => Locator.is_vlc c = false) clients ->
   Locator.get_vlc_geometry (Some clients) = None)
  /\ (forall s,
        Locator.get_vlc_geometry (Some clients) = Some s ->
        exists c x y w h ra rs,
          In c clients /\ Locator.is_vlc c = true
          /\ Locator.client_at c = Some (x :: y :: ra)
          /\ Locator.client_size c = Some (w :: h :: rs)
          /\ s = Locator.geometry_string x y w h).
Proof.
  split.
  - intros H. cbn [Locator.get_vlc_geometry].
    rewrite <- (app_nil_r clients), (scan_skip clients [] H). reflexivity.
  - cbn [Locator.get_vlc_geometry].
    induction clients as [|c rest IH]; intros s Hs; [discriminate Hs|].
    cbn [Locator.scan] in Hs.
    destruct (Locator.is_vlc c) eqn:Hc.
    + destruct (Locator.client_at c) as [[|x [|y ra]]|] eqn:Hat;
        try discriminate Hs;
        destruct (Locator.client_size c) as [[|w [|h rs]]|] eqn:Hsize;
        try discriminate Hs.
      injection Hs as <-.
      exists c, x, y, w, h, ra, rs. repeat split; try assumption.
      left; reflexivity.
    + destruct (IH s Hs) as (c' & x & y & w & h & ra & rs & Hin & H).
      exists c', x, y, w, h, ra, rs. split; [right; exact Hin | exact H].
Qed.

Section LocatorText.

Import Ascii String.

(** X5: the test for "vlc" ignores case and position: a class that holds
    the three letters in a row, each in either case, is a match. *)
Theorem locator_case_insensitive (c : Locator.client)
    (pre post : String.string) (a1 a2 a3 : Ascii.ascii) :
  Text.lower_char a1 = "v"%char ->
  Text.lower_char a2 = "l"%char ->
  Text.lower_char a3 = "c"%char ->
  Locator.client_class c
  = Some (String.append pre
            (String.String a1 (String.String a2 (String.String a3 post)))) ->
  Locator.is_vlc c = true.
Proof.
  intros H1 H2 H3 Hc. unfold Locator.is_vlc. rewrite Hc, lower_app.
  cbn [Text.lower]. rewrite H1, H2, H3.
  apply (contains_app "vlc" (Text.lower pre) (Text.lower post)).
Qed.

(** X6: the geometry string handed to [grim] reads back to the four numbers
    it was built from, and is never empty, so the test [not geometry] in
    [main] fails exactly on "not found". *)
Theorem geometry_string_round_trip (x y w h : Z) :
  Locator.parse_geometry (Locator.geometry_string x y w h) = Some (x, y, w, h)
  /\ Locator.geometry_string x y w h <> String.EmptyString.
Proof.
  split.
  - unfold Locator.parse_geometry, Locator.geometry_string.
    rewrite read_int_py_str by reflexivity. cbn [bind snd fst].
    rewrite expect_app. cbn [bind].
    rewrite read_int_py_str by reflexivity. cbn [bind snd fst].
    rewrite expect_app. cbn [bind].
    rewrite read_int_py_str by reflexivity. cbn [bind snd fst].
    rewrite expect_app. cbn [bind].
    pose proof (read_int_py_str h String.EmptyString eq_refl) as Hh.
    rewrite string_app_nil_r in Hh. rewrite Hh. reflexivity.
  - unfold Locator.geometry_string. intros H.
    destruct (Text.py_str x) eqn:E; [exact (py_str_nonempty x E)|].
    discriminate H.
Qed.

End LocatorText.

(** ** More on smoothing *)

Lemma blend_floor_channel (n o : Z) :
  channel n -> channel o ->
  channel ((3 * n + o) / 4)
  /\ Z.min n o <= (3 * n + o) / 4 <= Z.max n o.
Proof.
  unfold channel. intros Hn Ho.
  pose proof (Z.div_mod (3 * n + o) 4 ltac:(lia)) as E.
  pose proof (Z.mod_pos_bound (3 * n + o) 4 ltac:(lia)) as B.
  lia.
Qed.

(** X7: [smooth_color] works on tuples of any length and pairs the channels
    up as [zip] does: the result is as long as the shorter argument (empty
    for an empty one) and every channel is the floor of
    [(3 * new + previous) / 4]. *)
Theorem smooth_color_zip (new old : color) :
  Forall channel new -> Forall channel old ->
  smooth_color new old alpha_default
  = Some (map (fun p => (3 * fst p + snd p) / 4) (combine new old))
  /\ length (combine new old) = Nat.min (length new) (length old).
Proof.
  intros Hn Ho. split; [|apply length_combine].
  revert old Ho. induction Hn as [|n new Hn _ IH]; intros old Ho.
  - reflexivity.
  - destruct Ho as [|o old Ho Hold]; [reflexivity|].
    unfold smooth_color in *. cbn [combine map sequence fst snd].
    rewrite (smooth_channel_floor n o Hn Ho), (IH old Hold). reflexivity.
Qed.

Lemma smooth_color_zip_witness :
  smooth_color [200; 100] [0; 40; 255] alpha_default
  = Some (map (fun p => (3 * fst p + snd p) / 4) (combine [200; 100] [0; 40; 255]))
  /\ length (combine [200; 100] [0; 40; 255])
     = Nat.min (length [200; 100]) (length [0; 40; 255]).
Proof.
  apply (smooth_color_zip [200; 100] [0; 40; 255]);
    repeat constructor; unfold channel; lia.
Defined.

(** X8: a smoothed channel lies between the new and the previous value
    (both included), so it is a channel value again. *)
Theorem smooth_channel_between (n o : Z) :
  channel n -> channel o ->
  exists z,
    smooth_channel alpha_default (PyInt n) (PyInt o) = Some z
    /\ Z.min n o <= z <= Z.max n o
    /\ channel z.
Proof.
  intros Hn Ho. exists ((3 * n + o) / 4).
  destruct (blend_floor_channel n o Hn Ho) as [Hc Hb].
  split; [apply smooth_channel_floor; assumption|]. split; assumption.
Qed.

Lemma smooth_channel_between_witness :
  exists z,
    smooth_channel alpha_default (PyInt 10) (PyInt 250) = Some z
    /\ Z.min 10 250 <= z <= Z.max 10 250
    /\ channel z.
Proof. apply (smooth_channel_between 10 250); unfold channel; lia. Defined.

(** X9: smoothing four times against a steady new value settles: at the
    new value when the previous one was at or above it, one below it when
    the previous one was below, because every step cuts the fraction off.
    From there on nothing moves. *)
Theorem smooth_settles (n o : Z) :
  channel n -> channel o ->
  settle 4 n o = Some (if o <? n then n - 1 else n)
  /\ settle 5 n o = settle 4 n o.
Proof.
  intros Hn Ho.
  assert (S1 : forall k x, channel x ->
             settle (S k) n x = settle k n ((3 * n + x) / 4)).
  { intros k x Hx. cbn [settle]. rewrite (smooth_channel_floor n x Hn Hx).
    reflexivity. }
  pose proof (blend_floor_channel n o Hn Ho) as [C1 _].
  pose proof (blend_floor_channel n _ Hn C1) as [C2 _].
  pose proof (blend_floor_channel n _ Hn C2) as [C3 _].
  pose proof (blend_floor_channel n _ Hn C3) as [C4 _].
  rewrite (S1 4%nat o Ho), !(S1 3%nat), !(S1 2%nat), !(S1 1%nat), !(S1 0%nat)
    by assumption.
  cbn [settle]. unfold channel in *.
  destruct (Z.ltb_spec o n); split; f_equal;
    Z.div_mod_to_equations; lia.
Qed.

Lemma smooth_settles_witness :
  settle 4 200 0 = Some (if 0 <? 200 then 200 - 1 else 200)
  /\ settle 5 200 0 = settle 4 200 0.
Proof. apply (smooth_settles 200 0); unfold channel; lia. Defined.

Lemma alpha_one_checked : all_below 256 alpha_one_check = true.
Proof. vm_compute. reflexivity. Qed.

Lemma alpha_zero_checked : all_below 256 alpha_zero_check = true.
Proof. vm_compute. reflexivity. Qed.

(** X10: at the ends of the blend factor smoothing is a selector: with
    [alpha = 1.0] a channel is the new value, with [alpha = 0.0] the
    previous one. *)
Theorem smooth_channel_alpha_ends (n o : Z) :
  channel n -> channel o ->
  smooth_channel (py_lit 1 1) (PyInt n) (PyInt o) = Some n
  /\ smooth_channel (py_lit 0 1) (PyInt n) (PyInt o) = Some o.
Proof.
  unfold channel. intros Hn Ho. split.
  - pose proof (all_below_spec _ _ alpha_one_checked n ltac:(lia)) as H.
    pose proof (all_below_spec _ _ H o ltac:(lia)) as H'. cbv beta in H'.
    destruct (smooth_channel _ _ _) as [z|]; [|discriminate H'].
    apply Z.eqb_eq in H'. subst. reflexivity.
  - pose proof (all_below_spec _ _ alpha_zero_checked n ltac:(lia)) as H.
    pose proof (all_below_spec _ _ H o ltac:(lia)) as H'. cbv beta in H'.
    destruct (smooth_channel _ _ _) as [z|]; [|discriminate H'].
    apply Z.eqb_eq in H'. subst. reflexivity.
Qed.

Lemma smooth_channel_alpha_ends_witness :
  smooth_channel (py_lit 1 1) (PyInt 7) (PyInt 200) = Some 7
  /\ smooth_channel (py_lit 0 1) (PyInt 7) (PyInt 200) = Some 200.
Proof. apply (smooth_channel_alpha_ends 7 200); unfold channel; lia. Defined.

(** ** More on enhancement *)

Lemma primary_checked (p : promotion) : all_below 256 (primary_check p) = true.
Proof. destruct p; vm_compute; reflexivity. Qed.

(** X11: a pure primary stays pure: red, green or blue alone at level [c]
    comes out with that channel at [c] scaled by 1.1 (clamped to 255, cut to
    an integer) and the two others at 0. *)
Theorem enhance_primary (p : promotion) (c : Z) :
  channel c ->
  enhance p (c, 0, 0) = Some (boosted c, 0, 0)
  /\ enhance p (0, c, 0) = Some (0, boosted c, 0)
  /\ enhance p (0, 0, c) = Some (0, 0, boosted c).
Proof.
  unfold channel. intros Hc.
  pose proof (all_below_spec _ _ (primary_checked p) c ltac:(lia)) as H.
  unfold primary_check in H.
  destruct (enhance p (c, 0, 0)) as [[[r1 g1] b1]|]; [|discriminate H].
  destruct (enhance p (0, c, 0)) as [[[r2 g2] b2]|]; [|discriminate H].
  destruct (enhance p (0, 0, c)) as [[[r3 g3] b3]|]; [|discriminate H].
  repeat (apply andb_prop in H as [H ?]).
  repeat match goal with E : (_ =? _) = true |- _ => apply Z.eqb_eq in E end.
  subst. repeat split.
Qed.

Lemma enhance_primary_witness :
  enhance NEP50 (200, 0, 0) = Some (boosted 200, 0, 0)
  /\ enhance NEP50 (0, 200, 0) = Some (0, boosted 200, 0)
  /\ enhance NEP50 (0, 0, 200) = Some (0, 0, boosted 200).
Proof. apply (enhance_primary NEP50 200); unfold channel; lia. Defined.

(** ** More on the edge average *)

Lemma sum_by_repeat {A} (f : A -> Z) (x : A) (n : nat) :
  sum_by f (repeat x n) = Z.of_nat n * f x.
Proof.
  induction n as [|n IH]; [reflexivity|].
  cbn [repeat sum_by]. rewrite IH, Nat2Z.inj_succ. lia.
Qed.

Lemma in_firstn_nth {A} (n : nat) (l : list A) (x : A) :
  In x (firstn n l) -> exists i, (i < n)%nat /\ nth_error l i = Some x.
Proof.
  intros H. apply In_nth_error in H as [i Hi]. exists i.
  rewrite nth_error_firstn in Hi.
  destruct (Nat.ltb_spec i n) as [Hlt|_]; [|discriminate Hi].
  split; assumption.
Qed.

Lemma in_skipn_nth {A} (n : nat) (l : list A) (x : A) :
  In x (skipn n l) -> exists i, (n <= i)%nat /\ nth_error l i = Some x.
Proof.
  intros H. apply In_nth_error in H as [i Hi]. exists (n + i)%nat.
  rewrite nth_error_skipn in Hi. split; [lia | exact Hi].
Qed.

Lemma band_count_pos (i j : nat) :
  (i < 5 \/ 40 <= i \/ j < 5 \/ 75 <= j)%nat -> 0 < band_count i j.
Proof.
  unfold band_count. intros H.
  destruct (Nat.ltb_spec i 5), (Nat.leb_spec 40 i),
           (Nat.ltb_spec j 5), (Nat.leb_spec 75 j); cbn; lia.
Qed.

(** Every sampled pixel sits at a position that a band holds. *)
Lemma edges_positions (img : image) (px : pixel) :
  shape_80x45 img -> In px (edges img) ->
  exists i j row,
    nth_error img i = Some row /\ nth_error row j = Some px
    /\ 0 < band_count i j.
Proof.
  intros Hshape. pose proof Hshape as [Hh Hw]. unfold work_h, work_w in *.
  unfold edges, top, bottom, left, right, lastn, edge_thickness.
  rewrite !in_app_iff, !in_concat, Hh.
  intros [[r [Hr Hpx]] | [[r [Hr Hpx]] | [[r [Hr Hpx]] | [r [Hr Hpx]]]]].
  - apply in_firstn_nth in Hr as [i [Hi Hrow]].
    apply In_nth_error in Hpx as [j Hj].
    exists i, j, r. repeat split; try assumption. apply band_count_pos. lia.
  - apply in_skipn_nth in Hr as [i [Hi Hrow]].
    apply In_nth_error in Hpx as [j Hj].
    exists i, j, r. repeat split; try assumption. apply band_count_pos. lia.
  - apply in_map_iff in Hr as [row [<- Hin]].
    apply In_nth_error in Hin as [i Hrow].
    apply in_firstn_nth in Hpx as [j [Hj Hnth]].
    exists i, j, row. repeat split; try assumption. apply band_count_pos. lia.
  - apply in_map_iff in Hr as [row [<- Hin]].
    rewrite (rows_80 img Hshape row Hin) in Hpx.
    apply In_nth_error in Hin as [i Hrow].
    apply in_skipn_nth in Hpx as [j [Hj Hnth]].
    exists i, j, row. repeat split; try assumption. apply band_count_pos. lia.
Qed.

Lemma sum_by_all_equal {A} (f : A -> Z) (x : A) (l : list A) :
  (forall y, In y l -> y = x) -> sum_by f l = Z.of_nat (length l) * f x.
Proof.
  induction l as [|y l IH]; intros H; [reflexivity|].
  cbn [sum_by length]. rewrite (H y (or_introl eq_refl)), IH, Nat2Z.inj_succ.
  - lia.
  - intros z Hz. apply H. right. exact Hz.
Qed.

Lemma mean_int_uniform (img : image) (f : pixel -> Z) (border : pixel) :
  shape_80x45 img -> uniform_border border img ->
  channel (f border) ->
  mean_int f (edges img) = Some (f border).
Proof.
  unfold channel. intros Hshape Hb Hc. unfold mean_int.
  rewrite (sum_by_all_equal f border).
  - rewrite (edges_length img Hshape).
    rewrite mean_quotient by (unfold edge_pixels; lia).
    f_equal. unfold edge_pixels. rewrite Z.mul_comm. apply Z.div_mul. lia.
  - intros px Hpx.
    destruct (edges_positions img px Hshape Hpx) as (i & j & row & Hi & Hj & Hpos).
    exact (Hb i j row px Hi Hj Hpos).
Qed.

Lemma iall_spec {A} (g : nat -> A -> bool) (s : nat) (l : list A) :
  iall g s l = true ->
  forall k x, nth_error l k = Some x -> g (s + k)%nat x = true.
Proof.
  revert s. induction l as [|y l IH]; intros s H [|k] x Hk; cbn in Hk;
    try discriminate Hk; cbn [iall] in H; apply andb_prop in H as [Hy Hl].
  - injection Hk as <-. rewrite Nat.add_0_r. exact Hy.
  - replace (s + S k)%nat with (S s + k)%nat by lia. exact (IH (S s) Hl k x Hk).
Qed.

Lemma pixel_eqb_eq (a b : pixel) : pixel_eqb a b = true -> a = b.
Proof.
  destruct a as [[r g] b']. destruct b as [[r' g'] b''].
  unfold pixel_eqb. cbn. intros H.
  apply andb_prop in H as [H Hb]. apply andb_prop in H as [Hr Hg].
  apply Z.eqb_eq in Hr, Hg, Hb. subst. reflexivity.
Qed.

Lemma uniform_borderb_spec (border : pixel) (img : image) :
  uniform_borderb border img = true -> uniform_border border img.
Proof.
  intros H i j row px Hi Hj Hpos.
  pose proof (iall_spec _ 0 img H i row Hi) as Hrow. cbn [Nat.add] in Hrow.
  pose proof (iall_spec _ 0 row Hrow j px Hj) as Hpx. cbn [Nat.add] in Hpx.
  apply orb_prop in Hpx as [Hz|He].
  - apply Z.eqb_eq in Hz. lia.
  - apply pixel_eqb_eq. exact He.
Qed.

(** X12: an 80x45 frame whose border of thickness 5 has one colour averages
    to exactly that colour, whatever the interior holds. *)
Theorem edge_average_uniform_border (resample : image -> image)
    (img : image) (border : pixel) :
  shape_80x45 img ->
  uniform_border border img ->
  valid_pixel border ->
  extract_edge_average resample img = Some border.
Proof.
  intros Hshape Hb (Hr & Hg & Hbl). unfold extract_edge_average.
  rewrite (resize_same img Hshape).
  rewrite !(mean_int_uniform img _ border Hshape Hb) by assumption.
  destruct border as [[r g] b]. reflexivity.
Qed.

Lemma edge_average_uniform_border_witness :
  extract_edge_average (fun a => a) mixed_frame = Some (12, 200, 255).
Proof.
  apply (edge_average_uniform_border (fun a => a) mixed_frame (12, 200, 255)).
  - split; [reflexivity | repeat constructor].
  - apply uniform_borderb_spec. vm_compute. reflexivity.
  - unfold valid_pixel, channel; cbn; lia.
Defined.

Lemma band_sum_channel (img : image) (f : pixel -> Z) :
  shape_80x45 img -> Forall (Forall valid_pixel) img ->
  (forall px, valid_pixel px -> channel (f px)) ->
  channel (band_sum f img / edge_pixels).
Proof.
  intros Hshape Hvalid Hf.
  assert (B : 0 <= band_sum f img <= 255 * edge_pixels).
  { rewrite <- (edges_sum img Hshape f), <- (edges_length img Hshape).
    apply sum_by_bounds. intros px Hpx.
    apply Hf, (edges_valid img Hvalid px Hpx). }
  unfold channel, edge_pixels in *. split.
  - apply Z.div_pos; lia.
  - apply Z.div_le_upper_bound; lia.
Qed.

(** X13: the edge average of an 80x45 image with 8-bit channels is a
    colour: three integers in [0,255]. *)
Theorem edge_average_in_range (resample : image -> image) (img : image) :
  shape_80x45 img -> Forall (Forall valid_pixel) img ->
  exists r g b,
    extract_edge_average resample img = Some (r, g, b)
    /\ channel r /\ channel g /\ channel b.
Proof.
  intros Hshape Hvalid.
  exists (band_sum red img / edge_pixels), (band_sum green img / edge_pixels),
         (band_sum blue img / edge_pixels).
  split.
  - unfold extract_edge_average. rewrite (resize_same img Hshape).
    rewrite (mean_int_edges img Hshape Hvalid red),
            (mean_int_edges img Hshape Hvalid green),
            (mean_int_edges img Hshape Hvalid blue);
      [reflexivity | | |]; intros px (Hr & Hg & Hb); assumption.
  - repeat split; apply band_sum_channel; try assumption;
      intros px (Hr & Hg & Hb); assumption.
Qed.

Lemma edge_average_in_range_witness :
  exists r g b,
    extract_edge_average (fun a => a) (framed (200, 100, 50) (0, 0, 255))
    = Some (r, g, b)
    /\ channel r /\ channel g /\ channel b.
Proof.
  apply (edge_average_in_range (fun a => a) (framed (200, 100, 50) (0, 0, 255))).
  - apply framed_shape.
  - apply framed_valid; unfold valid_pixel, channel; cbn; lia.
Defined.

Lemma isum_update {A} (g : nat -> A -> Z) (s k : nat) (x y : A) (l : list A) :
  nth_error l k = Some y ->
  isum g s (update k x l) = isum g s l + (g (s + k)%nat x - g (s + k)%nat y).
Proof.
  revert s k. induction l as [|z l IH]; intros s [|k] H; cbn in H;
    try discriminate H.
  - injection H as ->. cbn [update isum]. rewrite Nat.add_0_r. lia.
  - cbn [update isum]. rewrite (IH (S s) k H).
    replace (S s + k)%nat with (s + S k)%nat by lia. lia.
Qed.

(** X14: a pixel weighs in the sampled sum as often as a band holds it:
    replacing the pixel at row [i], column [j] moves the sum of a channel
    over the sampled edge by the change of that channel times 0 (interior),
    1 (in one band) or 2 (in a corner block, where two bands cross). *)
Theorem edge_sum_pixel_weight (img : image) (i j : nat)
    (row : list pixel) (old px : pixel) (f : pixel -> Z) :
  shape_80x45 img ->
  nth_error img i = Some row -> nth_error row j = Some old ->
  sum_by f (edges (set_pixel img i j px))
  = sum_by f (edges img) + band_count i j * (f px - f old).
Proof.
  intros Hshape Hrow Hold.
  rewrite (edges_sum _ (set_pixel_shape img Hshape i j px) f).
  rewrite (edges_sum img Hshape f).
  unfold set_pixel, band_sum. rewrite Hrow.
  rewrite (isum_update _ 0 i _ row img Hrow).
  rewrite (isum_update _ 0 j px old row Hold).
  cbn [Nat.add]. lia.
Qed.

Lemma edge_sum_pixel_weight_witness :
  sum_by red (edges (set_pixel grey_frame 2 3 (28, 0, 0)))
  = sum_by red (edges grey_frame)
    + band_count 2 3 * (red (28, 0, 0) - red (128, 128, 128)).
Proof.
  apply (edge_sum_pixel_weight grey_frame 2 3 (repeat (128, 128, 128) 80)
           (128, 128, 128) (28, 0, 0) red).
  - apply framed_shape.
  - reflexivity.
  - reflexivity.
Defined.

(** ** More on the control loop *)

Section LoopRuns.

Variable promo : promotion.
Variable resample : image -> image.

Lemma waiting_count_app (a b : list event) :
  waiting_count (a ++ b) = waiting_count a + waiting_count b.
Proof.
  unfold waiting_count. rewrite filter_app, length_app, Nat2Z.inj_add.
  reflexivity.
Qed.

Lemma iteration_miss (st : state) (w : world) :
  located w = None ->
  iteration promo resample st w
  = Some ({| last_color := last_color st;
             no_vlc_count := no_vlc_count st + 1 |},
          [Query] ++ (if (no_vlc_count st + 1) mod 10 =? 1
                      then [Print Waiting] else []) ++ [Sleep 1]).
Proof. intros H. unfold iteration. rewrite H. reflexivity. Qed.

Lemma iteration_no_frame (st : state) (w : world) :
  no_frame w ->
  exists st' evs,
    iteration promo resample st w = Some (st', evs)
    /\ last_color st' = last_color st
    /\ Forall (fun e => touches_bulb e = false) evs.
Proof.
  intros [Hw|Hw]; unfold iteration.
  - rewrite Hw. do 2 eexists. split; [reflexivity|]. split; [reflexivity|].
    destruct (_ =? 1); repeat constructor.
  - destruct (located w) as [geo|].
    + rewrite Hw.
      destruct (0 <? no_vlc_count st); do 2 eexists;
        (split; [reflexivity|]); (split; [reflexivity|]);
        repeat constructor.
    + do 2 eexists. split; [reflexivity|]. split; [reflexivity|].
      destruct (_ =? 1); repeat constructor.
Qed.

Lemma iteration_located (st st' : state) (w : world) (geo : geometry)
    (evs : list event) :
  located w = Some geo ->
  iteration promo resample st w = Some (st', evs) ->
  (In (Print Detected) evs <-> 0 < no_vlc_count st)
  /\ (0 <= no_vlc_count st -> no_vlc_count st' = 0).
Proof.
  intros Hloc. unfold iteration. rewrite Hloc.
  destruct (Z.ltb_spec 0 (no_vlc_count st)) as [Hc|Hc].
  - destruct (captured w) as [img|].
    + destruct (transform _ _ _ _) as [[[r g] b]|]; cbn [bind]; [|discriminate].
      destruct (send_ok w); cbn; intros [= <- <-]; cbn;
        (split; [split; [intros _; exact Hc | intros _; tauto] | reflexivity]).
    + intros [= <- <-]. cbn.
      split; [split; [intros _; exact Hc | intros _; tauto] | reflexivity].
  - destruct (captured w) as [img|].
    + destruct (transform _ _ _ _) as [[[r g] b]|]; cbn [bind]; [|discriminate].
      destruct (send_ok w); cbn; intros [= <- <-]; cbn;
        (split; [split; [intros H; repeat (destruct H as [H|H]; try discriminate H);
                         contradiction
                        | lia]
                | lia]).
    + intros [= <- <-]. cbn.
      split; [split; [intros H; repeat (destruct H as [H|H]; try discriminate H);
                      contradiction
                     | lia]
             | lia].
Qed.

End LoopRuns.

(** X15: [n] iterations in a row without a window leave the previous
    colour alone, raise the miss counter by [n] and print the waiting notice
    once for every counter value that is 1 modulo 10 on the way: from a
    counter of 0 that is [(n + 9) / 10] notices. *)
Theorem misses_throttle_notice (promo : promotion) (resample : image -> image)
    (ws : list world) (st : state) :
  Forall (fun w => located w = None) ws ->
  exists evs,
    run promo resample st ws
    = Some ({| last_color := last_color st;
               no_vlc_count := no_vlc_count st + Z.of_nat (length ws) |}, evs)
    /\ waiting_count evs
       = (no_vlc_count st + Z.of_nat (length ws) + 9) / 10
         - (no_vlc_count st + 9) / 10.
Proof.
  intros H. revert st. induction H as [|w ws Hw _ IH]; intros st.
  - exists []. cbn [run length Z.of_nat]. rewrite Z.add_0_r.
    destruct st as [lc c]. split; [reflexivity|]. cbn. lia.
  - cbn [run]. rewrite (iteration_miss promo resample st w Hw). cbn [bind fst snd].
    destruct (IH {| last_color := last_color st;
                    no_vlc_count := no_vlc_count st + 1 |}) as (evs & Hrun & Hcount).
    rewrite Hrun. cbn [bind fst snd last_color no_vlc_count] in *.
    eexists. split.
    + f_equal. f_equal. f_equal. rewrite length_cons, Nat2Z.inj_succ. lia.
    + rewrite waiting_count_app, Hcount.
      rewrite length_cons, Nat2Z.inj_succ.
      set (c := no_vlc_count st). set (n := Z.of_nat (length ws)).
      assert (W : waiting_count
                    ([Query] ++ (if (c + 1) mod 10 =? 1
                                 then [Print Waiting] else []) ++ [Sleep 1])
                  = Z.b2z ((c + 1) mod 10 =? 1))
        by (destruct (_ =? 1); reflexivity).
      rewrite W.
      destruct (Z.eqb_spec ((c + 1) mod 10) 1) as [E|E];
        cbn [Z.b2z]; Z.div_mod_to_equations; lia.
Qed.

Lemma misses_throttle_notice_witness :
  exists evs,
    run NEP50 (fun a => a) initial (repeat miss 12)
    = Some ({| last_color := last_color initial;
               no_vlc_count := no_vlc_count initial
                               + Z.of_nat (length (repeat miss 12)) |}, evs)
    /\ waiting_count evs
       = (no_vlc_count initial + Z.of_nat (length (repeat miss 12)) + 9) / 10
         - (no_vlc_count initial + 9) / 10.
Proof.
  apply (misses_throttle_notice NEP50 (fun a => a) (repeat miss 12) initial).
  repeat constructor.
Defined.

(** X16: as long as no frame arrives (no window, or the capture fails) the
    loop keeps going, never sends to the bulb or prints a colour, and the
    previous colour stays what it was. *)
Theorem no_frame_freezes_filter (promo : promotion) (resample : image -> image)
    (ws : list world) (st : state) :
  Forall no_frame ws ->
  exists st' evs,
    run promo resample st ws = Some (st', evs)
    /\ last_color st' = last_color st
    /\ Forall (fun e => touches_bulb e = false) evs.
Proof.
  intros H. revert st. induction H as [|w ws Hw _ IH]; intros st.
  - exists st, []. repeat split. constructor.
  - destruct (iteration_no_frame promo resample st w Hw)
      as (st1 & ev1 & H1 & L1 & F1).
    destruct (IH st1) as (st2 & ev2 & H2 & L2 & F2).
    exists st2, (ev1 ++ ev2). cbn [run]. rewrite H1. cbn [bind fst snd].
    rewrite H2. cbn [bind fst snd]. split; [reflexivity|].
    split; [congruence|]. apply Forall_app. split; assumption.
Qed.

Lemma no_frame_freezes_filter_witness :
  exists st' evs,
    run NEP50 (fun a => a) initial [miss; dropped_frame; dropped_frame; miss]
    = Some (st', evs)
    /\ last_color st' = last_color initial
    /\ Forall (fun e => touches_bulb e = false) evs.
Proof.
  apply (no_frame_freezes_filter NEP50 (fun a => a)
           [miss; dropped_frame; dropped_frame; miss] initial).
  repeat constructor; (left; reflexivity) || (right; reflexivity).
Defined.

(** X17: an iteration that finds the window prints the detected notice
    exactly when misses were counted before it, and leaves the counter at 0
    unless it was negative. *)
Theorem detected_after_misses (promo : promotion) (resample : image -> image)
    (st st' : state) (w : world) (geo : geometry) (evs : list event) :
  located w = Some geo ->
  iteration promo resample st w = Some (st', evs) ->
  (In (Print Detected) evs <-> 0 < no_vlc_count st)
  /\ (0 <= no_vlc_count st -> no_vlc_count st' = 0).
Proof.
  intros Hloc Hit. exact (iteration_located promo resample st st' w geo evs Hloc Hit).
Qed.

Lemma detected_after_misses_witness :
  (In (Print Detected)
      [Query; Print Detected; Grab window; Sleep frame_delay]
   <-> 0 < no_vlc_count {| last_color := (0, 0, 0); no_vlc_count := 3 |})
  /\ (0 <= no_vlc_count {| last_color := (0, 0, 0); no_vlc_count := 3 |} ->
      no_vlc_count {| last_color := (0, 0, 0); no_vlc_count := 0 |} = 0).
Proof.
  apply (detected_after_misses NEP50 (fun a => a)
           {| last_color := (0, 0, 0); no_vlc_count := 3 |}
           {| last_color := (0, 0, 0); no_vlc_count := 0 |}
           dropped_frame window
           [Query; Print Detected; Grab window; Sleep frame_delay]);
    reflexivity.
Defined.

(** X18: the miss counter never goes below 0: whatever the outside world
    answers, a run that starts with a counter at or above 0 ends with one. *)
Theorem miss_counter_nonnegative (promo : promotion) (resample : image -> image)
    (ws : list world) (st st' : state) (evs : list event) :
  0 <= no_vlc_count st ->
  run promo resample st ws = Some (st', evs) ->
  0 <= no_vlc_count st'.
Proof.
  revert st evs. induction ws as [|w ws IH]; intros st evs Hc.
  - cbn. intros [= <- _]. exact Hc.
  - cbn [run].
    destruct (iteration promo resample st w) as [[st1 ev1]|] eqn:H1;
      cbn [bind fst snd]; [|discriminate].
    destruct (run promo resample st1 ws) as [[st2 ev2]|] eqn:H2;
      cbn [bind fst snd]; [|discriminate].
    intros [= <- _]. apply (IH st1 ev2); [|exact H2].
    destruct (located w) as [geo|] eqn:Hloc.
    + destruct (iteration_located promo resample st st1 w geo ev1 Hloc H1)
        as [_ H0]. rewrite (H0 Hc). lia.
    + rewrite (iteration_miss promo resample st w Hloc) in H1.
      injection H1 as <- _. cbn. lia.
Qed.

Lemma miss_counter_nonnegative_witness :
  0 <= no_vlc_count {| last_color := (105, 105, 105); no_vlc_count := 0 |}.
Proof.
  apply (miss_counter_nonnegative NEP50 (fun a => a) [miss; miss; hit true]
           initial {| last_color := (105, 105, 105); no_vlc_count := 0 |}
           [Query; Print Waiting; Sleep 1;
            Query; Sleep 1;
            Query; Print Detected; Grab window; SetPilot 105 105 105;
            Print (Readout 105 105 105); Sleep (sleep_time (1 # 100))]).
  - cbn. lia.
  - vm_compute. reflexivity.
Defined.

(** ** More on discovery *)

Section DiscoveryFacts.

Import FindBulb.

Lemma listen_prints_only (replies : list reply) :
  Forall (fun a => a <> Close /\ forall to, a <> GetPilot to)
         (fst (listen replies)).
Proof.
  induction replies as [|r rest IH]; cbn [listen].
  - repeat constructor; discriminate.
  - destruct (decode (data r)) as [text|].
    + destruct (listen rest) as [acts e]. cbn [fst] in *.
      repeat constructor; try discriminate. exact IH.
    + repeat constructor; discriminate.
Qed.

Lemma listen_stops (good rest : list reply) (bad : reply) :
  Forall decodes good -> ~ decodes bad ->
  listen (good ++ bad :: rest)
  = (flat_map report good ++ [PrintFound (fst (addr bad))], UnicodeDecodeError).
Proof.
  intros Hgood Hbad.
  induction Hgood as [|r good Hr _ IH]; cbn [app listen flat_map].
  - unfold decodes in Hbad.
    destruct (decode (data bad)) as [text|]; [|reflexivity].
    exfalso. apply Hbad. discriminate.
  - unfold report at 1. unfold decodes in Hr.
    destruct (decode (data r)) as [text|]; [|contradiction].
    rewrite IH. reflexivity.
Qed.

Lemma decode_ascii (l : list N) :
  Forall (fun b => (b < 128)%N) l -> decode l = Some l.
Proof.
  induction 1 as [|b l Hb _ IH]; [reflexivity|].
  cbn [decode]. apply N.ltb_lt in Hb. rewrite Hb, IH. reflexivity.
Qed.

End DiscoveryFacts.

(** X19: whatever arrives, and whether the script ends on the timeout or
    on a payload it cannot decode, it sends the query exactly once, at the
    start, and closes the socket exactly once, as its last act. *)
Theorem discovery_always_closes (replies : list FindBulb.reply) :
  exists body,
    fst (FindBulb.find_bulb replies)
    = [FindBulb.SetBroadcast; FindBulb.SetTimeout 2;
       FindBulb.GetPilot FindBulb.broadcast; FindBulb.PrintSearching]
        ++ body ++ [FindBulb.Close]
    /\ Forall (fun a => a <> FindBulb.Close
                        /\ forall to, a <> FindBulb.GetPilot to) body.
Proof.
  exists (fst (FindBulb.listen replies)). split.
  - unfold FindBulb.find_bulb.
    destruct (FindBulb.listen replies) as [acts e]. reflexivity.
  - apply listen_prints_only.
Qed.

(** X20: a payload that is not valid UTF-8 ends the scan on the spot: the
    replies before it are reported in full, its own address is printed,
    then the socket is closed and the script ends with the exception; the
    closing message and every later reply are lost. *)
Theorem discovery_stops_at_undecodable (good rest : list FindBulb.reply)
    (bad : FindBulb.reply) :
  Forall FindBulb.decodes good -> ~ FindBulb.decodes bad ->
  FindBulb.find_bulb (good ++ bad :: rest)
  = ([FindBulb.SetBroadcast; FindBulb.SetTimeout 2;
      FindBulb.GetPilot FindBulb.broadcast; FindBulb.PrintSearching]
       ++ flat_map FindBulb.report good
       ++ [FindBulb.PrintFound (fst (FindBulb.addr bad)); FindBulb.Close],
     FindBulb.UnicodeDecodeError).
Proof.
  intros Hgood Hbad. unfold FindBulb.find_bulb.
  rewrite (listen_stops good rest bad Hgood Hbad).
  rewrite <- app_assoc. reflexivity.
Qed.

Lemma discovery_stops_at_undecodable_witness :
  FindBulb.find_bulb ([FindBulb.bulb_a] ++ FindBulb.garbled :: [FindBulb.bulb_b])
  = ([FindBulb.SetBroadcast; FindBulb.SetTimeout 2;
      FindBulb.GetPilot FindBulb.broadcast; FindBulb.PrintSearching]
       ++ flat_map FindBulb.report [FindBulb.bulb_a]
       ++ [FindBulb.PrintFound (fst (FindBulb.addr FindBulb.garbled));
           FindBulb.Close],
     FindBulb.UnicodeDecodeError).
Proof.
  apply (discovery_stops_at_undecodable [FindBulb.bulb_a] [FindBulb.bulb_b]
           FindBulb.garbled).
  - repeat constructor. unfold FindBulb.decodes. cbn. discriminate.
  - unfold FindBulb.decodes. cbn. intros H. apply H. reflexivity.
Defined.

(** X21: replies made of ASCII bytes only are always reported, each with
    its payload as it came, and the scan ends normally on the timeout. *)
Theorem discovery_ascii_replies (replies : list FindBulb.reply) :
  Forall (fun r => Forall (fun b => (b < 128)%N) (FindBulb.data r)) replies ->
  FindBulb.find_bulb replies
  = ([FindBulb.SetBroadcast; FindBulb.SetTimeout 2;
      FindBulb.GetPilot FindBulb.broadcast; FindBulb.PrintSearching]
       ++ flat_map (fun r => [FindBulb.PrintFound (fst (FindBulb.addr r));
                              FindBulb.PrintResponse (FindBulb.data r)])
                   replies
       ++ [FindBulb.PrintComplete; FindBulb.Close],
     FindBulb.Normal).
Proof.
  intros H.
  assert (D : Forall FindBulb.decodes replies).
  { apply Forall_forall. intros r Hr. unfold FindBulb.decodes.
    rewrite Forall_forall in H. rewrite (decode_ascii _ (H r Hr)). discriminate. }
  unfold FindBulb.find_bulb. rewrite (listen_decoded replies D).
  rewrite <- app_assoc. do 3 f_equal.
  clear D. induction H as [|r rest Hr _ IH]; [reflexivity|].
  cbn [flat_map]. rewrite IH. unfold FindBulb.report.
  rewrite (decode_ascii _ Hr). reflexivity.
Qed.

Lemma discovery_ascii_replies_witness :
  FindBulb.find_bulb [FindBulb.bulb_a; FindBulb.bulb_b]
  = ([FindBulb.SetBroadcast; FindBulb.SetTimeout 2;
      FindBulb.GetPilot FindBulb.broadcast; FindBulb.PrintSearching]
       ++ flat_map (fun r => [FindBulb.PrintFound (fst (FindBulb.addr r));
                              FindBulb.PrintResponse (FindBulb.data r)])
                   [FindBulb.bulb_a; FindBulb.bulb_b]
       ++ [FindBulb.PrintComplete; FindBulb.Close],
     FindBulb.Normal).
Proof.
  apply (discovery_ascii_replies [FindBulb.bulb_a; FindBulb.bulb_b]).
  repeat constructor.
Defined.

(** ** Witnesses for the locator *)

Lemma locator_first_match_witness :
  Locator.get_vlc_geometry
    (Some ([Locator.browser; Locator.nameless]
             ++ Locator.player :: [Locator.broken_player]))
  = Some (Locator.geometry_string 100 50 1280 720).
Proof.
  apply (locator_first_match [Locator.browser; Locator.nameless]
           [Locator.broken_player] Locator.player 100 50 1280 720 [] []);
    repeat constructor.
Defined.

Lemma locator_broken_match_hides_later_witness :
  Locator.get_vlc_geometry
    (Some ([Locator.browser] ++ Locator.broken_player :: [Locator.player]))
  = None.
Proof.
  apply (locator_broken_match_hides_later [Locator.browser] [Locator.player]
           Locator.broken_player).
  - repeat constructor.
  - reflexivity.
  - left. intros x y r. cbn. discriminate.
Defined.

Lemma locator_case_insensitive_witness :
  Locator.is_vlc Locator.player = true.
Proof.
  apply (locator_case_insensitive Locator.player
           Text.videolan_prefix String.EmptyString
           Text.cap_v Text.cap_l Text.cap_c); reflexivity.
Defined.
